(** * Drone telemetry reconciliation: the store (store.js) and the
      socket message handler and identity policy (App.js)

    The development embeds three pieces of the front end:
    - [isAllowed], the identity policy of App.js;
    - [setSelectedDrone] and [addOrUpdateDrone], the two actions of the
      zustand store;
    - [onMessage], the handler registered with [socket.on("message", ...)],
      together with the [frozenPosRef] map it owns.

    JavaScript objects used as records or dictionaries are finite maps from
    property names to values; numbers are IEEE binary64 floats; a call
    that may raise a TypeError returns an option or a completion.

    The demo generator of App.js is switched off in the source
    ([DEMO_MODE = false]) and the map rendering effects only read the
    store; neither is modelled. *)

From Stdlib Require Import Floats.PrimFloat Strings.Ascii Strings.String.
From stdpp Require Import base option list strings gmap fin_maps.

Local Open Scope string_scope.
Local Open Scope list_scope.

(** ** Values *)

(** The values the program manipulates: [undefined] and what JSON
    carries, that is [null], booleans, numbers, strings, arrays (the
    [path] of a drone is an array of two-element arrays) and objects.
    The program never reads a property of an object it receives as a
    value, so [VObj] stands for any plain object; [String(v)] of such an
    object is ["[object Object]"] (an object with a property of its own
    called [toString] is not covered).
    Strings are UTF-8 byte strings; every literal the code compares
    against is ASCII, so indexing and prefix tests agree with the
    code-unit view. *)
#[warnings="-register-all"]
Inductive value : Type :=
| VUndefined
| VNull
| VBool (b : bool)
| VNum (x : float)
| VStr (s : string)
| VArr (l : list value)
| VObj.

(** [!!v] in the source negated twice: the truthiness of a value. *)
Definition ToBoolean (v : value) : bool :=
  match v with
  | VUndefined | VNull => false
  | VBool b => b
  | VNum x => negb (is_zero x || is_nan x)
  | VStr s => negb (String.eqb s EmptyString)
  | VArr _ | VObj => true
  end.

(** [typeof v === "string"]. *)
Definition typeof_string (v : value) : bool :=
  match v with VStr _ => true | _ => false end.

(** [Number.isFinite(v)]: false on every non-number. *)
Definition Number_isFinite (v : value) : bool :=
  match v with VNum x => is_finite x | _ => false end.

(** [a || b] and [a ?? b] on values. *)
Definition or_else (a b : value) : value := if ToBoolean a then a else b.

Definition nullish_else (a b : value) : value :=
  match a with VUndefined | VNull => b | _ => a end.

(** [v === "lit"] against a string literal. *)
Definition strict_eq_str (v : value) (lit : string) : bool :=
  match v with VStr s => String.eqb s lit | _ => false end.

(** Property read [o.k] on an object: [undefined] when the key is absent. *)
Definition get (o : gmap string value) (k : string) : value :=
  default VUndefined (o !! k).

(** [s[i]]: a one-character string, or [undefined] past the end. *)
Definition char_at (s : string) (i : nat) : value :=
  match String.get i s with
  | Some c => VStr (String c EmptyString)
  | None => VUndefined
  end.

(** ** Identity policy (App.js, isAllowed) *)

Definition ALLOWED_PREFIX : string := "SD-".
Definition ALLOWED_CHAR : string := "B".

Definition startsWith (s p : string) : bool := String.prefix p s.

Definition isAllowed (id : value) : bool :=
  if negb (ToBoolean id) || negb (typeof_string id) then false
  else
    match id with
    | VStr s =>
        if negb (startsWith s ALLOWED_PREFIX) then false
        else strict_eq_str (char_at s (String.length ALLOWED_PREFIX)) ALLOWED_CHAR
    | _ => false
    end.

(** ** Iteration *)

(** A UTF-8 continuation byte, [10xxxxxx]. *)
Definition is_continuation (c : ascii) : bool :=
  match c with
  | Ascii _ _ _ _ _ _ b6 b7 => b7 && negb b6
  end.

(** Whether the first byte of [s] continues the code point before it. *)
Definition continues (s : string) : bool :=
  match s with
  | String c _ => is_continuation c
  | EmptyString => false
  end.

(** The code points of a string, each as the string of its bytes: a byte
    starts a new code point unless the byte after it continues it. *)
Fixpoint code_points (s : string) : list string :=
  match s with
  | EmptyString => []
  | String c rest =>
      match code_points rest with
      | chunk :: chunks =>
          if continues rest then String c chunk :: chunks
          else String c EmptyString :: chunk :: chunks
      | [] => [String c EmptyString]
      end
  end.

(** The iteration protocol behind array destructuring and array spread:
    arrays yield their elements, strings their code points, and every
    other value ([undefined], [null], booleans, numbers, objects) raises
    a TypeError ([None]). *)
Definition iterate (v : value) : option (list value) :=
  match v with
  | VArr l => Some l
  | VStr s => Some (List.map VStr (code_points s))
  | _ => None
  end.

(** ** Telemetry messages (the GeoJSON payload of a socket message) *)

Record Geometry := { type : value; coordinates : value }.

Record Feature := {
  geometry : option Geometry;
  properties : option (gmap string value)
}.

Record FeatureCollection := { features : option (list Feature) }.

(** The fields the handler extracts from a message before it touches any
    state. *)
Module Event.
Record t := { id : value; lon : value; lat : value; yaw : value; p : gmap string value }.
End Event.

Inductive decoded : Type :=
| Dropped                 (* an early [return] *)
| Raised                  (* destructuring a value that is not iterable *)
| Accepted (e : Event.t).

(** [fc?.features?.[0]] *)
Definition firstFeature (fc : option FeatureCollection) : option Feature :=
  match fc with
  | None => None
  | Some fc =>
      match features fc with
      | None => None
      | Some fs => head fs
      end
  end.

(** App.js, the first half of the message handler: from [const feat] to
    the [Number.isFinite] guard. *)
Definition decode (fc : option FeatureCollection) : decoded :=
  match firstFeature fc with
  | None => Dropped
  | Some feat =>
      match geometry feat with
      | None => Dropped
      | Some g =>
          if negb (strict_eq_str (type g) "Point") then Dropped
          else
            match iterate (or_else (coordinates g) (VArr [])) with
            | None => Raised
            | Some cs =>
                let lon := nth 0 cs VUndefined in
                let lat := nth 1 cs VUndefined in
                let p := default ∅ (properties feat) in
                let id := or_else (get p "registration") (VStr "SD-UNK") in
                let yaw := nullish_else (get p "yaw") (VNum 0) in
                if negb (Number_isFinite lon) || negb (Number_isFinite lat) then Dropped
                else Accepted {| Event.id := id; Event.lon := lon; Event.lat := lat;
                                 Event.yaw := yaw; Event.p := p |}
            end
      end
  end.

(** The object literal both branches of the handler pass to the store.
    Every key is present, also when the property read yields
    [undefined]. *)
Definition droneData (id lon lat yaw : value) (p : gmap string value)
  : gmap string value :=
  <["id" := id]> (
  <["lon" := lon]> (
  <["lat" := lat]> (
  <["yaw" := yaw]> (
  <["altitude" := get p "altitude"]> (
  <["registration" := get p "registration"]> (
  <["name" := get p "Name"]> (
  <["pilot" := get p "pilot"]> (
  <["organization" := get p "organization"]> ∅)))))))).

(** ** State *)

(** A FreezeLock: the [{ lon, lat, yaw }] object kept in [frozenPosRef]. *)
Module Lock.
Record t := { lon : value; lat : value; yaw : value }.
End Lock.

(** The zustand store (store.js). *)
Record Store := {
  drones : gmap string (gmap string value);
  selectedDroneId : value
}.

Definition initialStore : Store :=
  {| drones := ∅; selectedDroneId := VNull |}.

(** The App component's view of the world: the store and the
    [frozenPosRef] map, keyed by [String(id)]. *)
Record App := {
  store : Store;
  frozenPosRef : gmap string Lock.t
}.

Definition initialApp : App :=
  {| store := initialStore; frozenPosRef := ∅ |}.

Inductive completion : Type := Normal | Throw.

(** store.js: [setSelectedDrone: (id) => set({ selectedDroneId: id })]. *)
Definition setSelectedDrone (id : value) (state : Store) : Store :=
  {| drones := drones state; selectedDroneId := id |}.

Section Host.

(** [Number::toString] of the JavaScript engine. The program never looks
    at the digits it prints, so it stays a parameter. *)
Variable Number_toString : float -> string.

(** [String(v)], which is also the property key [v] denotes in [o[v]]. *)
Fixpoint ToString (v : value) : string :=
  match v with
  | VUndefined => "undefined"
  | VNull => "null"
  | VBool b => if b then "true" else "false"
  | VNum x => Number_toString x
  | VStr s => s
  | VArr l =>
      String.concat ","
        (List.map (fun e => match e with
                            | VUndefined | VNull => EmptyString
                            | _ => ToString e
                            end) l)
  | VObj => "[object Object]"
  end.

(** store.js, [addOrUpdateDrone]. [now] is the reading [Date.now()] would
    give. [None] is the TypeError of spreading a truthy [existing.path]
    that is not iterable. *)
Definition addOrUpdateDrone (droneData : gmap string value) (now : float)
  (state : Store) : option Store :=
  let id := get droneData "id" in
  let existing := default ∅ (drones state !! ToString id) in
  let point := VArr [get droneData "lon"; get droneData "lat"] in
  path ← (if ToBoolean (get existing "path")
          then l ← iterate (get existing "path"); Some (VArr (l ++ [point]))
          else Some (VArr [point]));
  Some {| drones :=
            <[ToString id :=
                <["firstSeen" := or_else (get existing "firstSeen") (VNum now)]> (
                <["path" := path]> (droneData ∪ existing))]> (drones state);
          selectedDroneId := selectedDroneId state |}.

(** The call [addOrUpdateDrone({...})] made from the handler, after the
    handler has left [frozen] in [frozenPosRef]. *)
Definition commit (data : gmap string value) (now : float)
  (frozen : gmap string Lock.t) (app : App) : App * completion :=
  match addOrUpdateDrone data now (store app) with
  | Some state => ({| store := state; frozenPosRef := frozen |}, Normal)
  | None => ({| store := store app; frozenPosRef := frozen |}, Throw)
  end.

(** App.js, the second half of the message handler: the freeze gate and
    the write to the store. *)
Definition reconcile (e : Event.t) (now : float) (app : App) : App * completion :=
  let id := Event.id e in
  let p := Event.p e in
  if negb (isAllowed id) then
    let key := ToString id in
    let frozen :=
      match frozenPosRef app !! key with
      | Some _ => frozenPosRef app
      | None => <[key := {| Lock.lon := Event.lon e; Lock.lat := Event.lat e;
                            Lock.yaw := Event.yaw e |}]> (frozenPosRef app)
      end in
    match frozen !! key with
    | Some lock =>
        commit (droneData id (Lock.lon lock) (Lock.lat lock) (Lock.yaw lock) p) now frozen app
    | None => ({| store := store app; frozenPosRef := frozen |}, Throw)
    end
  else
    let frozen := delete (ToString id) (frozenPosRef app) in
    commit (droneData id (Event.lon e) (Event.lat e) (Event.yaw e) p) now frozen app.

(** [socket.on("message", (fc) => ...)]. *)
Definition onMessage (fc : option FeatureCollection) (now : float) (app : App)
  : App * completion :=
  match decode fc with
  | Dropped => (app, Normal)
  | Raised => (app, Throw)
  | Accepted e => reconcile e now app
  end.

(** What can happen to the application: a socket message arrives (with
    the clock reading at that moment), or the user selects a drone. *)
Inductive action : Type :=
| Message (fc : option FeatureCollection) (now : float)
| Select (id : value).

Definition step (a : action) (app : App) : App :=
  match a with
  | Message fc now => (onMessage fc now app).1
  | Select id =>
      {| store := setSelectedDrone id (store app); frozenPosRef := frozenPosRef app |}
  end.

Fixpoint run (actions : list action) (app : App) : App :=
  match actions with
  | [] => app
  | a :: rest => run rest (step a app)
  end.

Definition reachable (app : App) : Prop :=
  exists actions, app = run actions initialApp.

(** ** Vocabulary of the statements *)

(** The record [addOrUpdateDrone] stores:
    [{ ...existing, ...droneData, path, firstSeen }]. *)
Definition record (existing data : gmap string value) (path : value) (now : float)
  : gmap string value :=
  <["firstSeen" := or_else (get existing "firstSeen") (VNum now)]> (
  <["path" := path]> (data ∪ existing)).

(** The [[lon, lat]] pair appended to a path. *)
Definition point (lon lat : value) : value := VArr [lon; lat].

(** Every stored record carries an array under [path]. *)
Definition paths_are_arrays (state : Store) : Prop :=
  forall k d, drones state !! k = Some d -> exists l, d !! "path" = Some (VArr l).

(** The array a stored record carries under [path] ([[]] before the first
    reconciliation). *)
Definition path_of (d : gmap string value) : list value :=
  match d !! "path" with
  | Some (VArr l) => l
  | _ => []
  end.

(** The store after a successful [addOrUpdateDrone]. *)
Definition updated (data : gmap string value) (now : float) (state : Store) : Store :=
  let key := ToString (get data "id") in
  let existing := default ∅ (drones state !! key) in
  {| drones :=
       <[key := record existing data
                  (VArr (path_of existing ++ [point (get data "lon") (get data "lat")]))
                  now]> (drones state);
     selectedDroneId := selectedDroneId state |}.

(** The live position and heading of an event, as a lock. *)
Definition live (e : Event.t) : Lock.t :=
  {| Lock.lon := Event.lon e; Lock.lat := Event.lat e; Lock.yaw := Event.yaw e |}.

(** The freeze gate of the handler: the position and heading that go to
    the store, and the lock map the handler leaves behind. *)
Definition gate (e : Event.t) (frozen : gmap string Lock.t)
  : Lock.t * gmap string Lock.t :=
  let key := ToString (Event.id e) in
  if isAllowed (Event.id e) then (live e, delete key frozen)
  else
    match frozen !! key with
    | Some lock => (lock, frozen)
    | None => (live e, <[key := live e]> frozen)
    end.

(** The event a message decodes to, if the handler accepts it. *)
Definition event_of (a : action) : option Event.t :=
  match a with
  | Message fc _ =>
      match decode fc with
      | Accepted e => Some e
      | _ => None
      end
  | Select _ => None
  end.

(** The malformed telemetry messages: no first feature, no geometry or a
    geometry whose type is not ["Point"], no coordinates, or no finite
    longitude and latitude: the coordinates are not an array at all, or
    one of the first two elements is not a finite number. *)
Inductive malformed : option FeatureCollection -> Prop :=
| missing_feature fc :
    firstFeature fc = None -> malformed fc
| missing_geometry fc feat :
    firstFeature fc = Some feat -> geometry feat = None -> malformed fc
| not_a_point fc feat g :
    firstFeature fc = Some feat -> geometry feat = Some g ->
    type g <> VStr "Point" -> malformed fc
| missing_coordinates fc feat g :
    firstFeature fc = Some feat -> geometry feat = Some g ->
    coordinates g = VUndefined \/ coordinates g = VNull -> malformed fc
| no_finite_position fc feat g :
    firstFeature fc = Some feat -> geometry feat = Some g ->
    (forall cs, coordinates g = VArr cs ->
                Number_isFinite (nth 0 cs VUndefined) = false
                \/ Number_isFinite (nth 1 cs VUndefined) = false) ->
    malformed fc.

(** A truthy value that cannot be iterated: [true], a number other than
    0 and NaN, or an object. *)
Definition unspreadable (v : value) : bool :=
  match v with
  | VBool b => b
  | VNum x => ToBoolean (VNum x)
  | VObj => true
  | _ => false
  end.

(** The record stored under [key], or the empty object. *)
Definition existing_at (state : Store) (key : string) : gmap string value :=
  default ∅ (drones state !! key).

(** The path stored under [key] ([[]] when the key is unknown). *)
Definition path_at (app : App) (key : string) : list value :=
  path_of (existing_at (store app) key).

(** The record under [key], if any, carries an array under [path]. *)
Definition path_ok (state : Store) (key : string) : Prop :=
  forall d, drones state !! key = Some d -> exists l, d !! "path" = Some (VArr l).

(** [a] is a message the handler accepts, for identifier [id]. *)
Definition accepted_for (id : value) (a : action) : Prop :=
  exists e, event_of a = Some e /\ Event.id e = id.

(** The positions carried by the accepted messages of a feed, in arrival
    order. *)
Definition positions (actions : list action) : list value :=
  List.map (fun e => point (Event.lon e) (Event.lat e)) (omap event_of actions).

(** The position the gate resolves for an event. *)
Definition resolved (e : Event.t) (frozen : gmap string Lock.t) : value :=
  point (Lock.lon (gate e frozen).1) (Lock.lat (gate e frozen).1).

(** The record under [k] shows the position and heading of [lock], and
    [lock] is the lock kept for [k]. *)
Definition frozen_at (k : string) (lock : Lock.t) (app : App) : Prop :=
  frozenPosRef app !! k = Some lock
  /\ exists d,
      drones (store app) !! k = Some d
      /\ d !! "lon" = Some (Lock.lon lock)
      /\ d !! "lat" = Some (Lock.lat lock)
      /\ d !! "yaw" = Some (Lock.yaw lock).

(** The identifier a message resolves to, if the handler accepts it, is a
    string. *)
Definition string_identified (a : action) : bool :=
  match event_of a with
  | Some e => typeof_string (Event.id e)
  | None => true
  end.

(** ** Sample feeds *)

(** A well-formed message: one Point feature at [(lon, lat)] with the
    given properties. *)
Definition telemetry (lon lat : value) (props : gmap string value)
  : option FeatureCollection :=
  Some {| features :=
            Some [ {| geometry := Some {| type := VStr "Point";
                                          coordinates := VArr [lon; lat] |};
                      properties := Some props |} ] |}.

(** The event [decode] extracts from [telemetry lon lat props] when the
    registration is [id] and the yaw is [yaw]. *)
Definition sample_event (id lon lat yaw : value) (props : gmap string value) : Event.t :=
  {| Event.id := id; Event.lon := lon; Event.lat := lat; Event.yaw := yaw;
     Event.p := props |}.

(** A restricted drone reporting position, heading and altitude, and the
    same drone later, elsewhere, without altitude. *)
Definition props_A02_first : gmap string value :=
  <["registration" := VStr "SD-A02"]> (<["yaw" := VNum 45]> (<["altitude" := VNum 120]> ∅)).

Definition props_A02_second : gmap string value :=
  <["registration" := VStr "SD-A02"]> (<["yaw" := VNum 1]> ∅).

Definition A02_first : option FeatureCollection :=
  telemetry (VNum 10) (VNum 20) props_A02_first.

Definition A02_second : option FeatureCollection :=
  telemetry (VNum 99) (VNum 99) props_A02_second.

(** An admitted drone at two positions. *)
Definition props_B17 : gmap string value :=
  <["registration" := VStr "SD-B17"]> (<["yaw" := VNum 90]> ∅).

Definition B17_first : option FeatureCollection :=
  telemetry (VNum 35.5) (VNum 31.75) props_B17.

Definition B17_second : option FeatureCollection :=
  telemetry (VNum 36) (VNum 32) props_B17.

(** Messages without a registration. *)
Definition props_unidentified : gmap string value := <["yaw" := VNum 7]> ∅.

Definition unidentified_first : option FeatureCollection :=
  telemetry (VNum 1) (VNum 2) props_unidentified.


(** A message whose longitude is NaN. *)
Definition A07_nan : option FeatureCollection :=
  telemetry (VNum nan) (VNum 5) (<["registration" := VStr "SD-A07"]> ∅).

(** An engine for running the model on the sample feeds. They identify
    drones by strings, so no number is ever formatted. *)
Definition sample_Number_toString : float -> string := fun _ => "NaN".

(** ** Read models of App.js *)

(** App.js, [redDrones]:
    [Object.values(drones).filter((d) => !isAllowed(d.id))]. The list is
    in the enumeration order of the map, which is not the insertion order
    of a JavaScript object; the page shows only its length. *)
Definition redDrones (drones : gmap string (gmap string value))
  : list (gmap string value) :=
  filter (fun d => isAllowed (get d "id") = false) (map_to_list drones).*2.

(** One GeoJSON feature of the path layer:
    [{ type: "Feature", properties: { allowed }, geometry: { type:
    "LineString", coordinates } }]. *)
Record LineFeature := { allowed : bool; line : list value }.

(** App.js, the path effect, for one record: the [filter] keeps the
    record when [Array.isArray(d.path) && d.path.length > 1], the [map]
    builds its feature. *)
Definition pathFeature (d : gmap string value) : option LineFeature :=
  match get d "path" with
  | VArr l =>
      if Nat.ltb 1 (length l)
      then Some {| allowed := isAllowed (get d "id"); line := l |}
      else None
  | _ => None
  end.

(** ** Vocabulary of the further statements *)

(** [v == null]: [null] or [undefined]. *)
Definition nullish (v : value) : bool :=
  match v with VUndefined | VNull => true | _ => false end.

(** A position and heading the handler may store: finite longitude and
    latitude, and a yaw that is neither [null] nor [undefined]. *)
Definition sound_position (lon lat yaw : value) : Prop :=
  Number_isFinite lon = true /\ Number_isFinite lat = true /\ nullish yaw = false.

(** A path point: a pair of finite numbers. *)
Definition finite_point (v : value) : Prop :=
  exists lon lat, v = point lon lat
                  /\ Number_isFinite lon = true /\ Number_isFinite lat = true.

(** The key under which a message is reconciled, if it is accepted. *)
Definition key_of (a : action) : option string :=
  match event_of a with
  | Some e => Some (ToString (Event.id e))
  | None => None
  end.

(** The number of accepted messages of a feed reconciled under [k]. *)
Definition accepted_count (k : string) (actions : list action) : nat :=
  length (filter (fun a => key_of a = Some k) actions).


(** A Point feature whose coordinates are [c]. *)
Definition point_with_coordinates (c : value) : option FeatureCollection :=
  Some {| features :=
            Some [ {| geometry := Some {| type := VStr "Point"; coordinates := c |};
                      properties := None |} ] |}.

(** A Point feature whose coordinates are the number 5. *)
Definition coordinates_not_iterable : option FeatureCollection :=
  point_with_coordinates (VNum 5).


(** ** Theorems *)

(** *** Identity policy *)

Lemma isAllowed_string (s : string) :
  isAllowed (VStr s) = true <-> exists rest, s = "SD-B" +:+ rest.
Proof.
  unfold isAllowed, startsWith, ALLOWED_PREFIX, ALLOWED_CHAR, char_at.
  split.
  - destruct s as [|a0 [|a1 [|a2 [|a3 s]]]];
      cbn -[Ascii.ascii_dec Ascii.eqb]; try discriminate.
    all: repeat (match goal with
                 | |- context [Ascii.ascii_dec ?a ?b] =>
                     destruct (Ascii.ascii_dec a b) as [<-|];
                     cbn -[Ascii.ascii_dec Ascii.eqb]
                 end); try discriminate.
    destruct (Ascii.eqb_spec a3 "B"%char) as [->|]; cbn; [|discriminate].
    intros _. by exists s.
  - intros [rest ->]. reflexivity.
Qed.

Lemma isAllowed_not_string (v : value) :
  typeof_string v = false -> isAllowed v = false.
Proof.
  destruct v; cbn; try discriminate; intros _; unfold isAllowed; cbn;
    try reflexivity.
  - by rewrite orb_true_r.
  - by rewrite orb_true_r.
Qed.

(** C4. [isAllowed] is true exactly on the strings that begin with "SD-"
    followed by the character "B". It is false on every value that is
    not a string, on the empty string, on [null] and [undefined], and on
    every string shorter than four characters; and what follows the first
    four characters never changes the answer. *)
Theorem isAllowed_prefix_and_char :
  (forall v, isAllowed v = true
             <-> exists rest, v = VStr (ALLOWED_PREFIX +:+ ALLOWED_CHAR +:+ rest))
  /\ (forall v, typeof_string v = false -> isAllowed v = false)
  /\ isAllowed (VStr EmptyString) = false
  /\ isAllowed VNull = false
  /\ isAllowed VUndefined = false
  /\ (forall s, String.length s < 4 -> isAllowed (VStr s) = false)
  /\ (forall s tail tail', String.length s = 4 ->
        isAllowed (VStr (s +:+ tail)) = isAllowed (VStr (s +:+ tail'))).
Proof.
  split; [|split; [|split; [|split; [|split; [|split]]]]]; try reflexivity.
  - intros v. split.
    + intros H. destruct (typeof_string v) eqn:Ht.
      * destruct v; try discriminate.
        apply isAllowed_string in H as [rest ->]. by exists rest.
      * by rewrite isAllowed_not_string in H.
    + intros [rest ->]. apply isAllowed_string. by exists rest.
  - apply isAllowed_not_string.
  - intros s Hs. destruct (isAllowed (VStr s)) eqn:E; [|reflexivity].
    apply isAllowed_string in E as [rest ->].
    change (String.length ("SD-B" +:+ rest)) with (4 + String.length rest) in Hs. lia.
  - intros s tail tail' Hs.
    destruct s as [|a0 [|a1 [|a2 [|a3 [|a4 s]]]]]; try discriminate.
    reflexivity.
Qed.

(** *** Objects and the record literal *)

Lemma get_lookup (o : gmap string value) (k : string) (v : value) :
  o !! k = Some v -> get o k = v.
Proof. unfold get. by intros ->. Qed.

Lemma get_empty (k : string) : get ∅ k = VUndefined.
Proof. unfold get. by rewrite lookup_empty. Qed.

Lemma droneData_lookup (id lon lat yaw : value) (p : gmap string value) :
  droneData id lon lat yaw p !! "id" = Some id
  /\ droneData id lon lat yaw p !! "lon" = Some lon
  /\ droneData id lon lat yaw p !! "lat" = Some lat
  /\ droneData id lon lat yaw p !! "yaw" = Some yaw
  /\ droneData id lon lat yaw p !! "altitude" = Some (get p "altitude")
  /\ droneData id lon lat yaw p !! "path" = None
  /\ droneData id lon lat yaw p !! "firstSeen" = None.
Proof. unfold droneData. repeat split; by simplify_map_eq. Qed.

Lemma record_path (existing data : gmap string value) (path : value) (now : float) :
  record existing data path now !! "path" = Some path.
Proof. unfold record. by simplify_map_eq. Qed.

Lemma record_firstSeen (existing data : gmap string value) (path : value) (now : float) :
  record existing data path now !! "firstSeen"
  = Some (or_else (get existing "firstSeen") (VNum now)).
Proof. unfold record. by simplify_map_eq. Qed.

(** A key the incoming object carries wins over the existing record, also
    when it carries [undefined]. *)
Lemma record_data (existing data : gmap string value) (path : value) (now : float)
  (k : string) (v : value) :
  k <> "path" -> k <> "firstSeen" -> data !! k = Some v ->
  record existing data path now !! k = Some v.
Proof.
  intros Hp Hf Hk. unfold record.
  rewrite !lookup_insert_ne by done.
  by apply lookup_union_Some_l.
Qed.

(** A key the incoming object does not carry keeps its existing value. *)
Lemma record_existing (existing data : gmap string value) (path : value) (now : float)
  (k : string) :
  k <> "path" -> k <> "firstSeen" -> data !! k = None ->
  record existing data path now !! k = existing !! k.
Proof.
  intros Hp Hf Hk. unfold record.
  rewrite !lookup_insert_ne by done.
  by rewrite lookup_union_r.
Qed.

(** *** The store *)

Lemma addOrUpdateDrone_fresh (data : gmap string value) (now : float) (state : Store) :
  drones state !! ToString (get data "id") = None ->
  addOrUpdateDrone data now state
  = Some {| drones := <[ToString (get data "id") :=
                         record ∅ data (VArr [point (get data "lon") (get data "lat")]) now]>
                        (drones state);
            selectedDroneId := selectedDroneId state |}.
Proof.
  intros Hk. unfold addOrUpdateDrone. rewrite Hk. cbn.
  rewrite get_empty. reflexivity.
Qed.

Lemma addOrUpdateDrone_existing (data : gmap string value) (now : float) (state : Store)
  (d : gmap string value) (l : list value) :
  drones state !! ToString (get data "id") = Some d ->
  d !! "path" = Some (VArr l) ->
  addOrUpdateDrone data now state
  = Some {| drones := <[ToString (get data "id") :=
                         record d data (VArr (l ++ [point (get data "lon") (get data "lat")])) now]>
                        (drones state);
            selectedDroneId := selectedDroneId state |}.
Proof.
  intros Hk Hp. unfold addOrUpdateDrone. rewrite Hk. cbn.
  rewrite (get_lookup _ _ _ Hp). reflexivity.
Qed.

Lemma addOrUpdateDrone_Some (data : gmap string value) (now : float)
  (state state' : Store) :
  addOrUpdateDrone data now state = Some state' ->
  exists path,
    state' = {| drones := <[ToString (get data "id") :=
                              record (default ∅ (drones state !! ToString (get data "id")))
                                     data path now]> (drones state);
                selectedDroneId := selectedDroneId state |}.
Proof.
  unfold addOrUpdateDrone. intros H.
  destruct (if ToBoolean _ then _ else _) as [path|] eqn:E; cbn in H; [|discriminate].
  exists path. by injection H as <-.
Qed.

(** On a store whose paths are arrays the store function returns, and
    returns [updated]. *)
Lemma addOrUpdateDrone_updated (data : gmap string value) (now : float) (state : Store) :
  paths_are_arrays state ->
  addOrUpdateDrone data now state = Some (updated data now state).
Proof.
  intros Hwf. unfold updated.
  destruct (drones state !! ToString (get data "id")) as [d|] eqn:Hk.
  - destruct (Hwf _ _ Hk) as [l Hl].
    rewrite (addOrUpdateDrone_existing _ _ _ _ _ Hk Hl). cbn.
    unfold path_of. by rewrite Hl.
  - rewrite (addOrUpdateDrone_fresh _ _ _ Hk). cbn.
    unfold path_of. by rewrite lookup_empty.
Qed.

Lemma updated_paths_are_arrays (data : gmap string value) (now : float) (state : Store) :
  paths_are_arrays state -> paths_are_arrays (updated data now state).
Proof.
  intros Hwf k d. unfold updated. cbn.
  destruct (decide (ToString (get data "id") = k)) as [->|Hne].
  - rewrite lookup_insert_eq. intros [= <-]. eexists. apply record_path.
  - rewrite lookup_insert_ne by done. apply Hwf.
Qed.

(** *** The handler *)

Lemma reconcile_gate (e : Event.t) (now : float) (app : App) :
  reconcile e now app
  = let (lock, frozen) := gate e (frozenPosRef app) in
    commit (droneData (Event.id e) (Lock.lon lock) (Lock.lat lock) (Lock.yaw lock)
                      (Event.p e)) now frozen app.
Proof.
  unfold reconcile, gate.
  destruct (isAllowed (Event.id e)); cbn; [reflexivity|].
  destruct (frozenPosRef app !! ToString (Event.id e)) as [lock|] eqn:Hl.
  - by rewrite Hl.
  - by rewrite lookup_insert_eq.
Qed.

Lemma commit_updated (data : gmap string value) (now : float)
  (frozen : gmap string Lock.t) (app : App) :
  paths_are_arrays (store app) ->
  commit data now frozen app
  = ({| store := updated data now (store app); frozenPosRef := frozen |}, Normal).
Proof. intros Hwf. unfold commit. by rewrite addOrUpdateDrone_updated. Qed.

Lemma commit_paths_are_arrays (data : gmap string value) (now : float)
  (frozen : gmap string Lock.t) (app : App) :
  paths_are_arrays (store app) -> paths_are_arrays (store (commit data now frozen app).1).
Proof.
  intros Hwf. rewrite commit_updated by done. cbn.
  by apply updated_paths_are_arrays.
Qed.

Lemma step_paths_are_arrays (a : action) (app : App) :
  paths_are_arrays (store app) -> paths_are_arrays (store (step a app)).
Proof.
  intros Hwf. destruct a as [fc now|id]; cbn; [|exact Hwf].
  unfold onMessage. destruct (decode fc) as [| |e]; cbn; try exact Hwf.
  rewrite reconcile_gate. destruct (gate e (frozenPosRef app)) as [lock frozen].
  by apply commit_paths_are_arrays.
Qed.

Lemma run_paths_are_arrays (actions : list action) (app : App) :
  paths_are_arrays (store app) -> paths_are_arrays (store (run actions app)).
Proof.
  revert app. induction actions as [|a rest IH]; intros app Hwf; cbn; [done|].
  apply IH. by apply step_paths_are_arrays.
Qed.

Lemma reachable_paths_are_arrays (app : App) :
  reachable app -> paths_are_arrays (store app).
Proof.
  intros [actions ->]. apply run_paths_are_arrays.
  intros k d. cbn. by rewrite lookup_empty.
Qed.

(** On a reachable state the handler never throws once a message is
    accepted, and its effect is the gate followed by [updated]. *)
Lemma reconcile_updated (e : Event.t) (now : float) (app : App) :
  paths_are_arrays (store app) ->
  reconcile e now app
  = let (lock, frozen) := gate e (frozenPosRef app) in
    ({| store := updated (droneData (Event.id e) (Lock.lon lock) (Lock.lat lock)
                                    (Lock.yaw lock) (Event.p e)) now (store app);
        frozenPosRef := frozen |}, Normal).
Proof.
  intros Hwf. rewrite reconcile_gate.
  destruct (gate e (frozenPosRef app)) as [lock frozen].
  by apply commit_updated.
Qed.

(** On a reachable state the handler returns normally on every message
    whose coordinates, when present, can be destructured. *)
Lemma onMessage_returns (fc : option FeatureCollection) (now : float) (app : App) :
  reachable app -> decode fc <> Raised -> (onMessage fc now app).2 = Normal.
Proof.
  intros Hreach Hd. unfold onMessage.
  destruct (decode fc) as [| |e]; [reflexivity|contradiction|].
  rewrite reconcile_updated by (by apply reachable_paths_are_arrays).
  by destruct (gate e (frozenPosRef app)).
Qed.

(** *** Malformed messages *)

Lemma strict_eq_str_true (v : value) (lit : string) :
  strict_eq_str v lit = true <-> v = VStr lit.
Proof.
  destruct v; cbn; try (split; [discriminate|intros [=]]).
  split.
  - intros H. apply String.eqb_eq in H. by subst.
  - intros [= ->]. apply String.eqb_refl.
Qed.

Lemma unspreadable_spec (v : value) :
  unspreadable v = true <-> ToBoolean v = true /\ iterate v = None.
Proof.
  destruct v as [| |b|x|s|l|]; cbn -[code_points]; split;
    try discriminate; try (intros [_ ?]; discriminate);
    try (by intros [? _]); by intros.
Qed.

(** A malformed message is never accepted, and a message that is not
    accepted is malformed. *)
Lemma malformed_iff_not_accepted (fc : option FeatureCollection) :
  malformed fc <-> forall e, decode fc <> Accepted e.
Proof.
  unfold decode. split.
  - intros H e.
    destruct H as [fc Hf|fc feat Hf Hg|fc feat g Hf Hg Ht|fc feat g Hf Hg Hc
                  |fc feat g Hf Hg Hn]; rewrite Hf; try rewrite Hg; try discriminate.
    + destruct (strict_eq_str (type g) "Point") eqn:E; [|discriminate].
      apply strict_eq_str_true in E. contradiction.
    + destruct (strict_eq_str (type g) "Point"); [|discriminate]. cbn.
      by destruct Hc as [-> | ->].
    + destruct (strict_eq_str (type g) "Point"); [|discriminate]. cbn [negb].
      unfold or_else. destruct (ToBoolean (coordinates g)); [|cbn; discriminate].
      destruct (coordinates g) as [| |b|x|s|cs|] eqn:Hc; cbn -[code_points];
        try discriminate.
      * destruct (code_points s) as [|c0 [|c1 cs]]; cbn; discriminate.
      * destruct (Hn cs eq_refl) as [-> | ->]; rewrite ?orb_true_r; cbn; discriminate.
  - intros H.
    destruct (firstFeature fc) as [feat|] eqn:Hf; [|by apply missing_feature].
    destruct (geometry feat) as [g|] eqn:Hg; [|by eapply missing_geometry].
    destruct (strict_eq_str (type g) "Point") eqn:Ht; cbn [negb] in H.
    2:{ eapply not_a_point; [done..|]. intros E.
        apply strict_eq_str_true in E. congruence. }
    eapply no_finite_position; [done..|]. intros cs Hc.
    rewrite Hc in H. cbn in H.
    destruct (Number_isFinite (nth 0 cs VUndefined));
      destruct (Number_isFinite (nth 1 cs VUndefined)); cbn in H; auto.
    by destruct (H _ eq_refl).
Qed.

(** A malformed message never changes the application state; the
    handler returns normally unless the coordinates make the
    destructuring throw. *)
Lemma malformed_message_changes_nothing
  (fc : option FeatureCollection) (now : float) (app : App) :
  malformed fc ->
  (onMessage fc now app).1 = app
  /\ ((onMessage fc now app).2 = Throw <-> decode fc = Raised).
Proof.
  intros H. pose proof (proj1 (malformed_iff_not_accepted fc) H) as Hn.
  unfold onMessage.
  destruct (decode fc) as [| |e] eqn:Hd; cbn; [by split..|].
  by destruct (Hn e).
Qed.

(** *** Frame *)

(** C8. Reconciling an event for one identifier leaves the record of
    every other key of the drones map and the selection cursor as they
    were, in the store function and in the message handler alike; and
    [setSelectedDrone] leaves the whole drones map as it was. *)
Theorem reconciliation_frame :
  (forall data now state state' k,
      addOrUpdateDrone data now state = Some state' ->
      k <> ToString (get data "id") ->
      drones state' !! k = drones state !! k)
  /\ (forall data now state state',
      addOrUpdateDrone data now state = Some state' ->
      selectedDroneId state' = selectedDroneId state)
  /\ (forall fc now app e k,
      decode fc = Accepted e ->
      k <> ToString (Event.id e) ->
      drones (store (onMessage fc now app).1) !! k = drones (store app) !! k)
  /\ (forall fc now app,
      selectedDroneId (store (onMessage fc now app).1) = selectedDroneId (store app))
  /\ (forall id state, drones (setSelectedDrone id state) = drones state).
Proof.
  assert (Hstore : forall data now state state',
             addOrUpdateDrone data now state = Some state' ->
             selectedDroneId state' = selectedDroneId state
             /\ forall k, k <> ToString (get data "id") ->
                          drones state' !! k = drones state !! k).
  { intros data now state state' H.
    apply addOrUpdateDrone_Some in H as [path ->]. cbn. split; [done|].
    intros k Hk. by rewrite lookup_insert_ne. }
  assert (Hcommit : forall data now frozen app,
             selectedDroneId (store (commit data now frozen app).1)
             = selectedDroneId (store app)
             /\ forall k, k <> ToString (get data "id") ->
                          drones (store (commit data now frozen app).1) !! k
                          = drones (store app) !! k).
  { intros data now frozen app. unfold commit.
    destruct (addOrUpdateDrone data now (store app)) as [state'|] eqn:E; cbn; [|done].
    by apply Hstore in E. }
  repeat split.
  - intros data now state state' k H Hk. by apply (Hstore _ _ _ _ H).
  - intros data now state state' H. by apply (Hstore _ _ _ _ H).
  - intros fc now app e k Hd Hk. unfold onMessage. rewrite Hd.
    rewrite reconcile_gate. destruct (gate e (frozenPosRef app)) as [lock frozen].
    apply Hcommit.
    destruct (droneData_lookup (Event.id e) (Lock.lon lock) (Lock.lat lock)
                (Lock.yaw lock) (Event.p e)) as [Hid _].
    by rewrite (get_lookup _ _ _ Hid).
  - intros fc now app. unfold onMessage.
    destruct (decode fc) as [| |e]; cbn; try reflexivity.
    rewrite reconcile_gate. destruct (gate e (frozenPosRef app)) as [lock frozen].
    apply Hcommit.
Qed.

Lemma paths_are_arrays_path_ok (state : Store) (key : string) :
  paths_are_arrays state -> path_ok state key.
Proof. intros Hwf d. apply Hwf. Qed.

Lemma addOrUpdateDrone_updated_at (data : gmap string value) (now : float) (state : Store) :
  path_ok state (ToString (get data "id")) ->
  addOrUpdateDrone data now state = Some (updated data now state).
Proof.
  intros Hok. unfold updated.
  destruct (drones state !! ToString (get data "id")) as [d|] eqn:Hk.
  - destruct (Hok _ Hk) as [l Hl].
    rewrite (addOrUpdateDrone_existing _ _ _ _ _ Hk Hl). cbn.
    unfold path_of. by rewrite Hl.
  - rewrite (addOrUpdateDrone_fresh _ _ _ Hk). cbn.
    unfold path_of. by rewrite lookup_empty.
Qed.

Lemma droneData_id (id lon lat yaw : value) (p : gmap string value) :
  get (droneData id lon lat yaw p) "id" = id.
Proof. apply get_lookup, droneData_lookup. Qed.

Lemma droneData_lon (id lon lat yaw : value) (p : gmap string value) :
  get (droneData id lon lat yaw p) "lon" = lon.
Proof. apply get_lookup, droneData_lookup. Qed.

Lemma droneData_lat (id lon lat yaw : value) (p : gmap string value) :
  get (droneData id lon lat yaw p) "lat" = lat.
Proof. apply get_lookup, droneData_lookup. Qed.

(** The effect of the handler on an accepted event whose key is unknown
    or holds a well-formed record: it returns normally, leaves the gate's
    lock map behind, and stores the record built from the gate's lock. *)
Lemma reconcile_at (e : Event.t) (now : float) (app : App) :
  path_ok (store app) (ToString (Event.id e)) ->
  let lock := (gate e (frozenPosRef app)).1 in
  let existing := existing_at (store app) (ToString (Event.id e)) in
  let data := droneData (Event.id e) (Lock.lon lock) (Lock.lat lock) (Lock.yaw lock)
                (Event.p e) in
  reconcile e now app
  = ({| store :=
          {| drones :=
               <[ToString (Event.id e) :=
                   record existing data
                     (VArr (path_of existing ++ [point (Lock.lon lock) (Lock.lat lock)]))
                     now]> (drones (store app));
             selectedDroneId := selectedDroneId (store app) |};
        frozenPosRef := (gate e (frozenPosRef app)).2 |}, Normal).
Proof.
  intros Hok. cbn zeta. rewrite reconcile_gate.
  destruct (gate e (frozenPosRef app)) as [lock frozen]. cbn [fst snd].
  unfold commit. rewrite addOrUpdateDrone_updated_at.
  - unfold updated, existing_at. by rewrite droneData_id, droneData_lon, droneData_lat.
  - by rewrite droneData_id.
Qed.

Lemma record_position (existing : gmap string value) (id lon lat yaw : value)
  (p : gmap string value) (path : value) (now : float) :
  let d := record existing (droneData id lon lat yaw p) path now in
  d !! "id" = Some id /\ d !! "lon" = Some lon /\ d !! "lat" = Some lat
  /\ d !! "yaw" = Some yaw /\ d !! "altitude" = Some (get p "altitude").
Proof.
  destruct (droneData_lookup id lon lat yaw p) as (H1 & H2 & H3 & H4 & H5 & _).
  cbn zeta. repeat split; by apply record_data.
Qed.

Lemma gate_restricted_new (e : Event.t) (frozen : gmap string Lock.t) :
  isAllowed (Event.id e) = false ->
  frozen !! ToString (Event.id e) = None ->
  gate e frozen = (live e, <[ToString (Event.id e) := live e]> frozen).
Proof. intros Hr Hl. unfold gate. by rewrite Hr, Hl. Qed.

Lemma gate_restricted_locked (e : Event.t) (frozen : gmap string Lock.t) (lock : Lock.t) :
  isAllowed (Event.id e) = false ->
  frozen !! ToString (Event.id e) = Some lock ->
  gate e frozen = (lock, frozen).
Proof. intros Hr Hl. unfold gate. by rewrite Hr, Hl. Qed.

Lemma gate_admitted (e : Event.t) (frozen : gmap string Lock.t) :
  isAllowed (Event.id e) = true ->
  gate e frozen = (live e, delete (ToString (Event.id e)) frozen).
Proof. intros Ha. unfold gate. by rewrite Ha. Qed.

Lemma onMessage_accepted (fc : option FeatureCollection) (now : float) (app : App)
  (e : Event.t) :
  decode fc = Accepted e -> onMessage fc now app = reconcile e now app.
Proof. intros H. unfold onMessage. by rewrite H. Qed.

(** What an accepted event does to the state, read field by field. *)
Lemma reconcile_effect (e : Event.t) (now : float) (app : App) :
  path_ok (store app) (ToString (Event.id e)) ->
  let key := ToString (Event.id e) in
  let lock := (gate e (frozenPosRef app)).1 in
  let app' := (reconcile e now app).1 in
  (reconcile e now app).2 = Normal
  /\ frozenPosRef app' = (gate e (frozenPosRef app)).2
  /\ (forall k, k <> key -> drones (store app') !! k = drones (store app) !! k)
  /\ exists d,
      drones (store app') !! key = Some d
      /\ d !! "id" = Some (Event.id e)
      /\ d !! "lon" = Some (Lock.lon lock)
      /\ d !! "lat" = Some (Lock.lat lock)
      /\ d !! "yaw" = Some (Lock.yaw lock)
      /\ d !! "altitude" = Some (get (Event.p e) "altitude")
      /\ d !! "path"
         = Some (VArr (path_at app key ++ [point (Lock.lon lock) (Lock.lat lock)]))
      /\ d !! "firstSeen"
         = Some (or_else (get (existing_at (store app) key) "firstSeen") (VNum now)).
Proof.
  intros Hok. cbn zeta. rewrite reconcile_at by done. cbn [fst snd store drones frozenPosRef].
  split; [done|]. split; [done|]. split.
  - intros k Hk. by rewrite lookup_insert_ne.
  - eexists. split; [apply lookup_insert_eq|].
    pose proof (record_position (existing_at (store app) (ToString (Event.id e)))
                  (Event.id e) (Lock.lon (gate e (frozenPosRef app)).1)
                  (Lock.lat (gate e (frozenPosRef app)).1)
                  (Lock.yaw (gate e (frozenPosRef app)).1) (Event.p e)
                  (VArr (path_of (existing_at (store app) (ToString (Event.id e)))
                         ++ [point (Lock.lon (gate e (frozenPosRef app)).1)
                                   (Lock.lat (gate e (frozenPosRef app)).1)]))
                  now) as (H1 & H2 & H3 & H4 & H5).
    repeat split; try done.
    + apply record_path.
    + apply record_firstSeen.
Qed.

Lemma path_at_lookup (app : App) (key : string) (d : gmap string value) (l : list value) :
  drones (store app) !! key = Some d -> d !! "path" = Some (VArr l) ->
  path_at app key = l.
Proof. intros Hk Hp. unfold path_at, existing_at, path_of. by rewrite Hk; cbn; rewrite Hp. Qed.

Lemma path_at_unknown (app : App) (key : string) :
  drones (store app) !! key = None -> path_at app key = [].
Proof. intros Hk. unfold path_at, existing_at, path_of. by rewrite Hk; cbn; rewrite lookup_empty. Qed.

Lemma path_ok_lookup (state : Store) (key : string) (d : gmap string value) (l : list value) :
  drones state !! key = Some d -> d !! "path" = Some (VArr l) -> path_ok state key.
Proof. intros Hk Hp d'. rewrite Hk. intros [= <-]. by exists l. Qed.

Lemma path_ok_unknown (state : Store) (key : string) :
  drones state !! key = None -> path_ok state key.
Proof. intros Hk d. by rewrite Hk. Qed.

(** *** Freeze *)

(** C1. For a restricted identifier seen for the first time, two accepted
    events in a row leave a record whose longitude, latitude and yaw are
    those of the first event, whatever the second one carries, and whose
    path is the first event's position twice; the lock holds the first
    event's values, and neither call throws. *)
Theorem restricted_position_is_first_event
  (app : App) (fc1 fc2 : option FeatureCollection) (now1 now2 : float)
  (e1 e2 : Event.t) :
  decode fc1 = Accepted e1 ->
  decode fc2 = Accepted e2 ->
  Event.id e2 = Event.id e1 ->
  isAllowed (Event.id e1) = false ->
  frozenPosRef app !! ToString (Event.id e1) = None ->
  drones (store app) !! ToString (Event.id e1) = None ->
  (onMessage fc1 now1 app).2 = Normal
  /\ (onMessage fc2 now2 (onMessage fc1 now1 app).1).2 = Normal
  /\ frozenPosRef (run [Message fc1 now1; Message fc2 now2] app)
       !! ToString (Event.id e1) = Some (live e1)
  /\ exists d,
      drones (store (run [Message fc1 now1; Message fc2 now2] app))
        !! ToString (Event.id e1) = Some d
      /\ d !! "lon" = Some (Event.lon e1)
      /\ d !! "lat" = Some (Event.lat e1)
      /\ d !! "yaw" = Some (Event.yaw e1)
      /\ d !! "path" = Some (VArr [point (Event.lon e1) (Event.lat e1);
                                   point (Event.lon e1) (Event.lat e1)]).
Proof.
  intros Hd1 Hd2 Hid Hr Hlock Hnew. cbn [run step].
  rewrite (onMessage_accepted _ _ _ _ Hd1).
  destruct (reconcile_effect e1 now1 app (path_ok_unknown _ _ Hnew))
    as (Hc1 & Hf1 & _ & d1 & Hk1 & _ & _ & _ & _ & _ & Hp1 & _).
  rewrite gate_restricted_new in Hf1, Hp1 by done. cbn [fst snd] in Hf1, Hp1.
  rewrite path_at_unknown in Hp1 by done. cbn [List.app] in Hp1.
  set (app1 := (reconcile e1 now1 app).1) in *.
  rewrite (onMessage_accepted _ _ _ _ Hd2).
  assert (Hl1 : frozenPosRef app1 !! ToString (Event.id e2) = Some (live e1)).
  { by rewrite Hf1, Hid, lookup_insert_eq. }
  rewrite <- Hid in Hk1.
  destruct (reconcile_effect e2 now2 app1 (path_ok_lookup _ _ _ _ Hk1 Hp1))
    as (Hc2 & Hf2 & _ & d2 & Hk2 & _ & Hlon & Hlat & Hyaw & _ & Hp2 & _).
  assert (Hg : gate e2 (frozenPosRef app1) = (live e1, frozenPosRef app1)).
  { apply gate_restricted_locked; [by rewrite Hid|done]. }
  rewrite Hg in Hf2, Hlon, Hlat, Hyaw, Hp2.
  cbn [fst snd] in *. rewrite (path_at_lookup _ _ _ _ Hk1 Hp1) in Hp2.
  rewrite Hid in *.
  split; [done|]. split; [done|]. split; [by rewrite Hf2|].
  exists d2. by repeat split.
Qed.

(** C6. On a reachable state, an accepted event whose identifier is
    admitted returns normally, deletes the identifier's lock from the lock
    map (so that no lock exists for it afterwards), and stores the live
    longitude, latitude and yaw of the event, appending the live position
    to the path. *)
Theorem admitted_event_clears_lock
  (app : App) (fc : option FeatureCollection) (now : float) (e : Event.t) :
  reachable app ->
  decode fc = Accepted e ->
  isAllowed (Event.id e) = true ->
  let key := ToString (Event.id e) in
  let app' := (onMessage fc now app).1 in
  (onMessage fc now app).2 = Normal
  /\ frozenPosRef app' = delete key (frozenPosRef app)
  /\ frozenPosRef app' !! key = None
  /\ exists d,
      drones (store app') !! key = Some d
      /\ d !! "lon" = Some (Event.lon e)
      /\ d !! "lat" = Some (Event.lat e)
      /\ d !! "yaw" = Some (Event.yaw e)
      /\ d !! "path"
         = Some (VArr (path_at app key ++ [point (Event.lon e) (Event.lat e)])).
Proof.
  intros Hreach Hd Ha. cbn zeta. rewrite (onMessage_accepted _ _ _ _ Hd).
  apply reachable_paths_are_arrays in Hreach.
  destruct (reconcile_effect e now app (paths_are_arrays_path_ok _ _ Hreach))
    as (Hc & Hf & _ & d & Hk & _ & Hlon & Hlat & Hyaw & _ & Hp & _).
  rewrite gate_admitted in Hf, Hlon, Hlat, Hyaw, Hp by done. cbn [fst snd live] in *.
  split; [done|]. split; [done|]. split; [by rewrite Hf, lookup_delete_eq|].
  exists d. by repeat split.
Qed.

(** *** One step of the application *)

Lemma event_of_Message (fc : option FeatureCollection) (now : float) (e : Event.t) :
  event_of (Message fc now) = Some e <-> decode fc = Accepted e.
Proof.
  cbn. destruct (decode fc); split; intros H; try discriminate; congruence.
Qed.

(** A step leaves the record under a key alone, or is an accepted event
    for that key and stores a record built from the gate's lock. *)
Lemma step_drones (a : action) (app : App) (k : string) :
  drones (store (step a app)) !! k = drones (store app) !! k
  \/ exists e now path,
      event_of a = Some e
      /\ k = ToString (Event.id e)
      /\ drones (store (step a app)) !! k
         = Some (record (existing_at (store app) k)
                   (droneData (Event.id e)
                      (Lock.lon (gate e (frozenPosRef app)).1)
                      (Lock.lat (gate e (frozenPosRef app)).1)
                      (Lock.yaw (gate e (frozenPosRef app)).1) (Event.p e))
                   path now).
Proof.
  destruct a as [fc now|id]; [|by left]. cbn [step event_of]. unfold onMessage.
  destruct (decode fc) as [| |e]; try by left.
  rewrite reconcile_gate.
  destruct (gate e (frozenPosRef app)) as [lock frozen] eqn:Hg. unfold commit.
  destruct (addOrUpdateDrone _ now (store app)) as [state'|] eqn:E; [|by left].
  apply addOrUpdateDrone_Some in E as [path ->]. rewrite droneData_id.
  cbn [fst store drones].
  destruct (decide (k = ToString (Event.id e))) as [->|Hne].
  - right. exists e, now, path. rewrite Hg. cbn [fst].
    split; [reflexivity|]. split; [reflexivity|].
    rewrite lookup_insert_eq. reflexivity.
  - left. apply lookup_insert_ne. congruence.
Qed.

(** A step never removes a key of the drones map. *)
Lemma step_drones_is_Some (a : action) (app : App) (k : string) :
  is_Some (drones (store app) !! k) -> is_Some (drones (store (step a app)) !! k).
Proof.
  intros Hk. destruct (step_drones a app k) as [->|(e & now & path & _ & _ & ->)]; eauto.
Qed.

(** The lock map after a step is the gate's, whether or not the store
    call throws. *)
Lemma step_frozen (a : action) (app : App) :
  frozenPosRef (step a app)
  = match event_of a with
    | Some e => (gate e (frozenPosRef app)).2
    | None => frozenPosRef app
    end.
Proof.
  destruct a as [fc now|id]; [|reflexivity]. cbn [step event_of]. unfold onMessage.
  destruct (decode fc) as [| |e]; try reflexivity.
  rewrite reconcile_gate. destruct (gate e (frozenPosRef app)) as [lock frozen].
  unfold commit. by destruct (addOrUpdateDrone _ _ _).
Qed.

Lemma isAllowed_is_string (id : value) :
  isAllowed id = true -> id = VStr (ToString id).
Proof.
  intros H. destruct id; try by rewrite isAllowed_not_string in H.
  reflexivity.
Qed.

Lemma or_else_truthy (a b : value) : ToBoolean a = true -> or_else a b = a.
Proof. unfold or_else. by intros ->. Qed.

(** *** firstSeen *)

Lemma step_firstSeen (a : action) (app : App) (k : string) (v : value) :
  ToBoolean v = true ->
  (exists d, drones (store app) !! k = Some d /\ d !! "firstSeen" = Some v) ->
  exists d, drones (store (step a app)) !! k = Some d /\ d !! "firstSeen" = Some v.
Proof.
  intros Hv (d & Hk & Hf).
  destruct (step_drones a app k) as [->|(e & now & path & _ & _ & ->)]; [by exists d|].
  eexists. split; [reflexivity|]. rewrite record_firstSeen.
  unfold existing_at. rewrite Hk. cbn [default from_option id].
  by rewrite (get_lookup _ _ _ Hf), or_else_truthy.
Qed.

Lemma run_firstSeen (actions : list action) (app : App) (k : string) (v : value) :
  ToBoolean v = true ->
  (exists d, drones (store app) !! k = Some d /\ d !! "firstSeen" = Some v) ->
  exists d, drones (store (run actions app)) !! k = Some d /\ d !! "firstSeen" = Some v.
Proof.
  intros Hv. revert app. induction actions as [|a rest IH]; intros app H; cbn; [done|].
  apply IH. by apply step_firstSeen.
Qed.

(** C7. When an identifier is reconciled for the first time, at a clock
    reading that is not zero, the record is stamped with that reading as
    [firstSeen], and whatever happens afterwards (further events for the
    identifier at other times, frozen or not, events for other
    identifiers, selections) the record keeps that stamp. *)
Theorem firstSeen_is_first_reconciliation
  (app : App) (fc1 : option FeatureCollection) (now1 : float) (e1 : Event.t)
  (rest : list action) :
  decode fc1 = Accepted e1 ->
  drones (store app) !! ToString (Event.id e1) = None ->
  ToBoolean (VNum now1) = true ->
  exists d,
    drones (store (run (Message fc1 now1 :: rest) app)) !! ToString (Event.id e1) = Some d
    /\ d !! "firstSeen" = Some (VNum now1).
Proof.
  intros Hd Hnew Hnow. cbn [run step]. apply run_firstSeen; [done|].
  rewrite (onMessage_accepted _ _ _ _ Hd).
  destruct (reconcile_effect e1 now1 app (path_ok_unknown _ _ Hnew))
    as (_ & _ & _ & d & Hk & _ & _ & _ & _ & _ & _ & Hf).
  exists d. split; [done|]. rewrite Hf.
  unfold existing_at. rewrite Hnew. cbn [default from_option id]. by rewrite get_empty.
Qed.

(** *** Paths *)

(** On a well-formed store a step appends the resolved position to the
    path of the event's key and leaves every other path alone. *)
Lemma step_path_at (a : action) (app : App) (k : string) :
  paths_are_arrays (store app) ->
  path_at (step a app) k
  = path_at app k
    ++ match event_of a with
       | Some e => if decide (k = ToString (Event.id e))
                   then [resolved e (frozenPosRef app)] else []
       | None => []
       end.
Proof.
  intros Hwf. destruct a as [fc now|id]; cbn [step event_of].
  2:{ by rewrite app_nil_r. }
  unfold onMessage. destruct (decode fc) as [| |e]; cbn [fst]; try by rewrite app_nil_r.
  destruct (reconcile_effect e now app (paths_are_arrays_path_ok _ _ Hwf))
    as (_ & _ & Hother & d & Hk & _ & _ & _ & _ & _ & Hp & _).
  destruct (decide (k = ToString (Event.id e))) as [->|Hne].
  - by rewrite (path_at_lookup _ _ _ _ Hk Hp).
  - rewrite app_nil_r. unfold path_at, existing_at. by rewrite Hother.
Qed.

Lemma accepted_for_cons (id : value) (a : action) (rest : list action) :
  Forall (accepted_for id) (a :: rest) ->
  (exists e, event_of a = Some e /\ Event.id e = id) /\ Forall (accepted_for id) rest.
Proof. intros H. by apply Forall_cons in H. Qed.

Lemma positions_cons (a : action) (rest : list action) (e : Event.t) :
  event_of a = Some e ->
  positions (a :: rest) = point (Event.lon e) (Event.lat e) :: positions rest.
Proof. intros H. unfold positions. cbn. by rewrite H. Qed.

Lemma positions_length (id : value) (actions : list action) :
  Forall (accepted_for id) actions -> length (positions actions) = length actions.
Proof.
  induction actions as [|a rest IH]; intros H; [reflexivity|].
  apply accepted_for_cons in H as [(e & He & _) Hrest].
  rewrite (positions_cons _ _ _ He). cbn. by rewrite IH.
Qed.

Lemma run_path_admitted (id : value) (actions : list action) (app : App) :
  isAllowed id = true ->
  paths_are_arrays (store app) ->
  Forall (accepted_for id) actions ->
  path_at (run actions app) (ToString id) = path_at app (ToString id) ++ positions actions.
Proof.
  intros Ha. revert app. induction actions as [|a rest IH]; intros app Hwf H; cbn [run].
  - by rewrite app_nil_r.
  - apply accepted_for_cons in H as [(e & He & <-) Hrest].
    rewrite IH by (done || by apply step_paths_are_arrays).
    rewrite step_path_at by done. rewrite He, decide_True by done.
    rewrite (positions_cons _ _ _ He), <- app_assoc. cbn.
    unfold resolved. by rewrite gate_admitted.
Qed.

Lemma run_path_locked (id : value) (lock : Lock.t) (actions : list action) (app : App) :
  isAllowed id = false ->
  frozenPosRef app !! ToString id = Some lock ->
  paths_are_arrays (store app) ->
  Forall (accepted_for id) actions ->
  path_at (run actions app) (ToString id)
  = path_at app (ToString id)
    ++ repeat (point (Lock.lon lock) (Lock.lat lock)) (length actions).
Proof.
  intros Hr. revert app. induction actions as [|a rest IH]; intros app Hl Hwf H; cbn [run].
  - by rewrite app_nil_r.
  - apply accepted_for_cons in H as [(e & He & <-) Hrest].
    rewrite IH; try done.
    + rewrite step_path_at by done. rewrite He, decide_True by done.
      rewrite <- app_assoc. cbn. unfold resolved.
      by rewrite (gate_restricted_locked _ _ _ Hr Hl).
    + rewrite step_frozen, He. by rewrite (gate_restricted_locked _ _ _ Hr Hl).
    + by apply step_paths_are_arrays.
Qed.

(** C3. On a reachable state, a feed of N accepted events for one
    identifier extends the identifier's path by exactly N points and
    keeps what the path held before, in order: the points are the events'
    positions in arrival order when the identifier is admitted, and N
    times the locked position (the existing lock's, else the first
    event's) when it is restricted. For an identifier not seen before
    the path thus has exactly N elements. And no step of the application
    does anything to any path but keep it or append one point to it. *)
Theorem path_grows_one_point_per_event
  (app : App) (id : value) (actions : list action) :
  reachable app ->
  Forall (accepted_for id) actions ->
  let key := ToString id in
  (exists pts,
      path_at (run actions app) key = path_at app key ++ pts
      /\ length pts = length actions
      /\ (isAllowed id = true -> pts = positions actions)
      /\ (isAllowed id = false ->
          forall e1, head (omap event_of actions) = Some e1 ->
            let lock := default (live e1) (frozenPosRef app !! key) in
            pts = repeat (point (Lock.lon lock) (Lock.lat lock)) (length actions)))
  /\ (drones (store app) !! key = None ->
      length (path_at (run actions app) key) = length actions)
  /\ (forall a k, exists suffix,
        path_at (step a app) k = path_at app k ++ suffix /\ length suffix <= 1).
Proof.
  intros Hreach Hall. cbn zeta.
  apply reachable_paths_are_arrays in Hreach.
  assert (Hpts : exists pts,
             path_at (run actions app) (ToString id) = path_at app (ToString id) ++ pts
             /\ length pts = length actions
             /\ (isAllowed id = true -> pts = positions actions)
             /\ (isAllowed id = false ->
                 forall e1, head (omap event_of actions) = Some e1 ->
                   pts = repeat (point (Lock.lon (default (live e1)
                                          (frozenPosRef app !! ToString id)))
                                       (Lock.lat (default (live e1)
                                          (frozenPosRef app !! ToString id))))
                                (length actions))).
  { destruct (isAllowed id) eqn:Ha.
    - exists (positions actions). rewrite run_path_admitted by done.
      split; [done|]. split; [by apply (positions_length id)|]. by split.
    - destruct actions as [|a rest].
      + exists []. cbn. rewrite app_nil_r. repeat split; done.
      + pose proof Hall as Hall'.
        apply accepted_for_cons in Hall' as [(e & He & <-) Hrest].
        set (lock := default (live e) (frozenPosRef app !! ToString (Event.id e))).
        assert (Hg : gate e (frozenPosRef app)
                     = (lock, <[ToString (Event.id e) := lock]> (frozenPosRef app))).
        { unfold gate, lock. rewrite Ha.
          destruct (frozenPosRef app !! ToString (Event.id e)) as [l|] eqn:Hl; cbn; [|done].
          by rewrite insert_id. }
        exists (repeat (point (Lock.lon lock) (Lock.lat lock)) (length (a :: rest))).
        cbn [run].
        rewrite (run_path_locked (Event.id e) lock); try done.
        * rewrite step_path_at by done. rewrite He, decide_True by done.
          unfold resolved. rewrite Hg. cbn [fst length repeat].
          rewrite <- app_assoc. split; [done|]. split; [by rewrite repeat_length|].
          split; [done|]. intros _ e1. cbn. rewrite He. by intros [= <-].
        * rewrite step_frozen, He, Hg. cbn [snd]. by rewrite lookup_insert_eq.
        * by apply step_paths_are_arrays. }
  split; [exact Hpts|]. split.
  - intros Hnew. destruct Hpts as (pts & -> & Hlen & _).
    by rewrite path_at_unknown.
  - intros a k. rewrite step_path_at by done.
    eexists. split; [reflexivity|].
    destruct (event_of a) as [e|]; [|cbn; lia].
    destruct (decide _); cbn; lia.
Qed.

(** *** Decoding *)

Lemma decode_fields (fc : option FeatureCollection) (e : Event.t) :
  decode fc = Accepted e ->
  Event.id e = or_else (get (Event.p e) "registration") (VStr "SD-UNK")
  /\ Event.yaw e = nullish_else (get (Event.p e) "yaw") (VNum 0)
  /\ Number_isFinite (Event.lon e) = true
  /\ Number_isFinite (Event.lat e) = true.
Proof.
  unfold decode.
  destruct (firstFeature fc) as [feat|]; [|discriminate].
  destruct (geometry feat) as [g|]; [|discriminate].
  destruct (negb (strict_eq_str (type g) "Point")); [discriminate|].
  destruct (iterate _) as [cs|]; [|discriminate].
  destruct (Number_isFinite (nth 0 cs VUndefined)) eqn:H0;
    destruct (Number_isFinite (nth 1 cs VUndefined)) eqn:H1; try discriminate.
  cbn. by intros [= <-].
Qed.

(** *** Restricted keys stay frozen *)




(** *** Identity *)

(** Every record is stored under the key its [id] field denotes. *)
Lemma step_key_of_id (a : action) (app : App) :
  (forall k d, drones (store app) !! k = Some d -> ToString (get d "id") = k) ->
  forall k d, drones (store (step a app)) !! k = Some d -> ToString (get d "id") = k.
Proof.
  intros Hinv k d.
  destruct (step_drones a app k) as [->|(e & now & path & _ & -> & ->)]; [apply Hinv|].
  intros [= <-].
  destruct (record_position (existing_at (store app) (ToString (Event.id e))) (Event.id e)
              (Lock.lon (gate e (frozenPosRef app)).1)
              (Lock.lat (gate e (frozenPosRef app)).1)
              (Lock.yaw (gate e (frozenPosRef app)).1) (Event.p e) path now)
    as (Hid & _).
  by rewrite (get_lookup _ _ _ Hid).
Qed.

Lemma reachable_key_of_id (app : App) (k : string) (d : gmap string value) :
  reachable app -> drones (store app) !! k = Some d -> ToString (get d "id") = k.
Proof.
  intros [actions ->]. revert k d.
  assert (H : forall app,
             (forall k d, drones (store app) !! k = Some d -> ToString (get d "id") = k) ->
             forall k d, drones (store (run actions app)) !! k = Some d ->
                         ToString (get d "id") = k).
  { induction actions as [|a rest IH]; intros app Hinv; cbn; [done|].
    apply IH. by apply step_key_of_id. }
  apply H. intros k d. cbn. by rewrite lookup_empty.
Qed.

Lemma step_id_is_key (a : action) (app : App) :
  string_identified a = true ->
  (forall k d, drones (store app) !! k = Some d -> d !! "id" = Some (VStr k)) ->
  forall k d, drones (store (step a app)) !! k = Some d -> d !! "id" = Some (VStr k).
Proof.
  intros Ha Hinv k d.
  destruct (step_drones a app k) as [->|(e & now & path & He & -> & ->)]; [apply Hinv|].
  intros [= <-]. unfold string_identified in Ha. rewrite He in Ha.
  destruct (record_position (existing_at (store app) (ToString (Event.id e))) (Event.id e)
              (Lock.lon (gate e (frozenPosRef app)).1)
              (Lock.lat (gate e (frozenPosRef app)).1)
              (Lock.yaw (gate e (frozenPosRef app)).1) (Event.p e) path now)
    as (Hid & _).
  rewrite Hid. by destruct (Event.id e).
Qed.

Lemma run_id_is_key (actions : list action) (app : App) :
  forallb string_identified actions = true ->
  (forall k d, drones (store app) !! k = Some d -> d !! "id" = Some (VStr k)) ->
  forall k d, drones (store (run actions app)) !! k = Some d -> d !! "id" = Some (VStr k).
Proof.
  revert app. induction actions as [|a rest IH]; intros app Hall Hinv; cbn; [done|].
  cbn in Hall. apply andb_true_iff in Hall as [Ha Hrest].
  apply IH; [done|]. by apply step_id_is_key.
Qed.

(** C10. In every state reached from the empty store each
    record of the drones map is stored under the key [String(id)] of its
    [id] field; when that [id] is a string, and in particular when every
    registration of the feed was a string, the [id] is the key itself. A
    further step stores no record under another key than [String(id)]
    and leaves the string form of the [id] of every record already
    present as it was; between string registrations it leaves the [id]
    itself as it was. *)
Theorem record_key_is_string_of_id
  (actions : list action) (k : string) (d : gmap string value) :
  drones (store (run actions initialApp)) !! k = Some d ->
  ToString (get d "id") = k
  /\ (typeof_string (get d "id") = true -> d !! "id" = Some (VStr k))
  /\ (forallb string_identified actions = true -> d !! "id" = Some (VStr k))
  /\ forall a d',
      drones (store (step a (run actions initialApp))) !! k = Some d' ->
      ToString (get d' "id") = ToString (get d "id")
      /\ (forallb string_identified actions = true ->
          string_identified a = true -> d' !! "id" = d !! "id").
Proof.
  intros Hk.
  assert (Hreach : reachable (run actions initialApp)) by (by exists actions).
  pose proof (reachable_key_of_id _ _ _ Hreach Hk) as Hkey.
  assert (Hstr : forallb string_identified actions = true ->
                 forall k d, drones (store (run actions initialApp)) !! k = Some d ->
                             d !! "id" = Some (VStr k)).
  { intros Hall. apply run_id_is_key; [done|].
    intros k' d'. cbn. by rewrite lookup_empty. }
  split; [done|]. split; [|split; [by intros Hall; apply (Hstr Hall)|]].
  - intros Ht. unfold get in Hkey, Ht.
    destruct (d !! "id") as [[| |b|x|s|l|]|]; try discriminate.
    cbn in Hkey. by subst.
  - intros a d' Hk'. split.
    + rewrite Hkey.
      apply (step_key_of_id a (run actions initialApp)); [|done].
      intros k0 d0. by apply reachable_key_of_id.
    + intros Hall Ha. rewrite (Hstr Hall _ _ Hk).
      by apply (step_id_is_key a (run actions initialApp) Ha (Hstr Hall)).
Qed.

(** *** Metadata *)

(** A key the handler's object literal carries with the value [undefined]
    replaces what the record held: the altitude of an event without
    altitude is stored as [undefined]. *)
Lemma absent_altitude_is_stored_undefined
  (app : App) (fc : option FeatureCollection) (now : float) (e : Event.t) :
  reachable app ->
  decode fc = Accepted e ->
  Event.p e !! "altitude" = None ->
  exists d,
    drones (store (onMessage fc now app).1) !! ToString (Event.id e) = Some d
    /\ d !! "altitude" = Some VUndefined.
Proof.
  intros Hreach Hd Halt. rewrite (onMessage_accepted _ _ _ _ Hd).
  apply reachable_paths_are_arrays in Hreach.
  destruct (reconcile_effect e now app (paths_are_arrays_path_ok _ _ Hreach))
    as (_ & _ & _ & d & Hk & _ & _ & _ & _ & Ha & _).
  exists d. split; [done|]. rewrite Ha. unfold get. by rewrite Halt.
Qed.

(** The store function on its own keeps the existing value of a key that
    the incoming object does not carry at all. *)
Lemma addOrUpdateDrone_keeps_absent_keys
  (data : gmap string value) (now : float) (state state' : Store)
  (d : gmap string value) (k : string) :
  addOrUpdateDrone data now state = Some state' ->
  drones state !! ToString (get data "id") = Some d ->
  k <> "path" -> k <> "firstSeen" -> data !! k = None ->
  exists d', drones state' !! ToString (get data "id") = Some d' /\ d' !! k = d !! k.
Proof.
  intros H Hd Hp Hf Hk. apply addOrUpdateDrone_Some in H as [path ->]. cbn.
  eexists. split; [apply lookup_insert_eq|].
  rewrite Hd. cbn. by apply record_existing.
Qed.

(** ** Further properties of the store and the handler *)

(** *** Reachable states *)

Lemma run_snoc (actions : list action) (a : action) (app : App) :
  run (actions ++ [a]) app = step a (run actions app).
Proof.
  revert app. induction actions as [|b rest IH]; intros app; cbn; [done|]. apply IH.
Qed.

Lemma reachable_step (a : action) (app : App) :
  reachable app -> reachable (step a app).
Proof. intros [actions ->]. exists (actions ++ [a]). by rewrite run_snoc. Qed.

Lemma reachable_run (actions : list action) (app : App) :
  reachable app -> reachable (run actions app).
Proof.
  revert app. induction actions as [|a rest IH]; intros app H; cbn; [done|].
  apply IH. by apply reachable_step.
Qed.

(** Induction over the reachable states. *)
Lemma reachable_ind (P : App -> Prop) :
  P initialApp ->
  (forall a app, reachable app -> P app -> P (step a app)) ->
  forall app, reachable app -> P app.
Proof.
  intros Hinit Hstep app [actions ->].
  induction actions as [|a actions IH] using rev_ind; [done|].
  rewrite run_snoc. apply Hstep; [by exists actions|done].
Qed.

(** A step that is not an accepted message leaves the drones map and the
    lock map alone. *)
Lemma step_not_accepted (a : action) (app : App) :
  event_of a = None ->
  drones (store (step a app)) = drones (store app)
  /\ frozenPosRef (step a app) = frozenPosRef app.
Proof.
  destruct a as [fc now|id]; cbn [step event_of]; [|done].
  unfold onMessage. by destruct (decode fc).
Qed.

(** A step that is an accepted message is the second half of the
    handler. *)
Lemma step_accepted (a : action) (app : App) (e : Event.t) :
  event_of a = Some e -> exists now, step a app = (reconcile e now app).1.
Proof.
  destruct a as [fc now|id]; cbn [step event_of]; [|discriminate].
  unfold onMessage. destruct (decode fc); try discriminate.
  intros [= ->]. by exists now.
Qed.

Lemma gate_lookup_other (e : Event.t) (frozen : gmap string Lock.t) (k : string) :
  k <> ToString (Event.id e) -> (gate e frozen).2 !! k = frozen !! k.
Proof.
  intros Hk. unfold gate. destruct (isAllowed (Event.id e)); cbn [snd].
  - by rewrite lookup_delete_ne.
  - destruct (frozen !! ToString (Event.id e)); cbn [snd]; [done|].
    by rewrite lookup_insert_ne.
Qed.

Lemma gate_lookup_same (e : Event.t) (frozen : gmap string Lock.t) :
  (gate e frozen).2 !! ToString (Event.id e)
  = if isAllowed (Event.id e) then None else Some (gate e frozen).1.
Proof.
  unfold gate. destruct (isAllowed (Event.id e)); cbn [fst snd].
  - by rewrite lookup_delete_eq.
  - destruct (frozen !! ToString (Event.id e)) eqn:Hl; cbn [fst snd]; [done|].
    by rewrite lookup_insert_eq.
Qed.

(** *** The store on its own *)

(** X1. [addOrUpdateDrone] ignores whatever the incoming object carries
    under [path] and [firstSeen]: the result is the one for the object
    without these two keys. A caller (the demo generator passes [...d])
    cannot set or reset the path or the first-seen stamp. *)
Theorem incoming_path_and_firstSeen_are_ignored
  (data : gmap string value) (now : float) (state : Store) :
  addOrUpdateDrone data now state
  = addOrUpdateDrone (delete "path" (delete "firstSeen" data)) now state.
Proof.
  unfold addOrUpdateDrone, get.
  rewrite !(lookup_delete_ne _ "path") by done.
  rewrite !(lookup_delete_ne _ "firstSeen") by done.
  destruct (if ToBoolean _ then _ else _) as [path|]; cbn; [|done].
  do 3 f_equal. apply map_eq. intros k.
  destruct (decide (k = "firstSeen")) as [->|Hf]; [by rewrite !lookup_insert_eq|].
  rewrite !(lookup_insert_ne _ "firstSeen") by done.
  destruct (decide (k = "path")) as [->|Hp]; [by rewrite !lookup_insert_eq|].
  rewrite !(lookup_insert_ne _ "path") by done.
  rewrite !lookup_union. by rewrite !lookup_delete_ne by congruence.
Qed.


Lemma addOrUpdateDrone_setSelectedDrone
  (data : gmap string value) (now : float) (id : value) (state : Store) :
  addOrUpdateDrone data now (setSelectedDrone id state)
  = setSelectedDrone id <$> addOrUpdateDrone data now state.
Proof.
  unfold addOrUpdateDrone. cbn [setSelectedDrone drones selectedDroneId].
  by destruct (if ToBoolean _ then _ else _).
Qed.

(** X3. Selecting a drone and handling a socket message commute: the
    selection does not influence what the handler stores or locks, and
    the handler does not touch the selection, whether it drops the
    message, throws, or reconciles it. *)
Theorem selection_commutes_with_message
  (id : value) (fc : option FeatureCollection) (now : float) (app : App) :
  step (Select id) (step (Message fc now) app)
  = step (Message fc now) (step (Select id) app).
Proof.
  cbn [step]. unfold onMessage.
  destruct (decode fc) as [| |e]; cbn [fst]; try reflexivity.
  rewrite !reconcile_gate. cbn [frozenPosRef].
  destruct (gate e (frozenPosRef app)) as [lock frozen].
  unfold commit. cbn [store]. rewrite addOrUpdateDrone_setSelectedDrone.
  by destruct (addOrUpdateDrone _ now (store app)).
Qed.

(** X4. No step of the application removes a record: a key of the drones
    map stays a key after any feed of messages and selections. *)
Theorem records_are_never_removed
  (actions : list action) (app : App) (k : string) :
  is_Some (drones (store app) !! k) ->
  is_Some (drones (store (run actions app)) !! k).
Proof.
  revert app. induction actions as [|a rest IH]; intros app Hk; cbn [run]; [done|].
  apply IH. by apply step_drones_is_Some.
Qed.

(** *** Errors of the handler *)

Lemma decode_Raised_iff (fc : option FeatureCollection) :
  decode fc = Raised
  <-> exists feat g,
      firstFeature fc = Some feat
      /\ geometry feat = Some g
      /\ type g = VStr "Point"
      /\ unspreadable (coordinates g) = true.
Proof.
  unfold decode. split.
  - destruct (firstFeature fc) as [feat|] eqn:Hf; [|discriminate].
    destruct (geometry feat) as [g|] eqn:Hg; [|discriminate].
    destruct (strict_eq_str (type g) "Point") eqn:Ht; cbn [negb]; [|discriminate].
    apply strict_eq_str_true in Ht. intros H. exists feat, g.
    split; [done|]. split; [done|]. split; [done|].
    apply unspreadable_spec.
    unfold or_else in H. destruct (ToBoolean (coordinates g)) eqn:Hb.
    + split; [done|]. destruct (iterate (coordinates g)); [|done].
      by destruct (negb _ || negb _).
    + cbn in H. discriminate.
  - intros (feat & g & -> & -> & Ht & Hc).
    apply strict_eq_str_true in Ht. rewrite Ht. cbn [negb].
    apply unspreadable_spec in Hc as [Hb Hi].
    unfold or_else. by rewrite Hb, Hi.
Qed.

(** X5. A message whose first feature is a Point with coordinates that
    are truthy and cannot be destructured ([true], a number other than 0
    and NaN, or an object) makes the handler throw, in any state, before
    it has changed anything; and on a reachable state the handler has
    changed nothing whenever it throws. *)
Theorem handler_throws_on_unspreadable_coordinates :
  (forall fc now app feat g,
      firstFeature fc = Some feat ->
      geometry feat = Some g ->
      type g = VStr "Point" ->
      unspreadable (coordinates g) = true ->
      onMessage fc now app = (app, Throw))
  /\ (forall fc now app,
      reachable app ->
      (onMessage fc now app).2 = Throw -> (onMessage fc now app).1 = app).
Proof.
  split.
  - intros fc now app feat g Hf Hg Ht Hc. unfold onMessage.
    assert (Hd : decode fc = Raised) by (apply decode_Raised_iff; eauto 10).
    by rewrite Hd.
  - intros fc now app Hreach. unfold onMessage.
    destruct (decode fc) as [| |e] eqn:Hd; [done..|].
    rewrite reconcile_updated by (by apply reachable_paths_are_arrays).
    by destruct (gate e (frozenPosRef app)).
Qed.

(** *** Invariants of the reachable states *)

(** The effect of an accepted message on a reachable state. *)
Lemma step_effect (a : action) (app : App) (e : Event.t) :
  reachable app ->
  event_of a = Some e ->
  let key := ToString (Event.id e) in
  let lock := (gate e (frozenPosRef app)).1 in
  frozenPosRef (step a app) = (gate e (frozenPosRef app)).2
  /\ (forall k, k <> key -> drones (store (step a app)) !! k = drones (store app) !! k)
  /\ exists d,
      drones (store (step a app)) !! key = Some d
      /\ d !! "id" = Some (Event.id e)
      /\ d !! "lon" = Some (Lock.lon lock)
      /\ d !! "lat" = Some (Lock.lat lock)
      /\ d !! "yaw" = Some (Lock.yaw lock)
      /\ d !! "path"
         = Some (VArr (path_at app key ++ [point (Lock.lon lock) (Lock.lat lock)])).
Proof.
  intros Hreach He. cbn zeta.
  destruct (step_accepted a app e He) as [now ->].
  apply reachable_paths_are_arrays in Hreach.
  destruct (reconcile_effect e now app (paths_are_arrays_path_ok _ _ Hreach))
    as (_ & Hf & Hother & d & Hk & Hid & Hlon & Hlat & Hyaw & _ & Hp & _).
  split; [done|]. split; [done|]. by exists d.
Qed.

Lemma event_sound (a : action) (e : Event.t) :
  event_of a = Some e ->
  sound_position (Event.lon e) (Event.lat e) (Event.yaw e).
Proof.
  destruct a as [fc now|id]; [|discriminate]. intros He.
  apply event_of_Message in He.
  destruct (decode_fields _ _ He) as (_ & Hyaw & Hlon & Hlat).
  split; [done|]. split; [done|]. rewrite Hyaw.
  by destruct (get (Event.p e) "yaw").
Qed.

Lemma reachable_lock_has_record (app : App) (k : string) (lock : Lock.t) :
  reachable app -> frozenPosRef app !! k = Some lock -> frozen_at k lock app.
Proof.
  intros Hreach. revert k lock. pattern app. revert app Hreach.
  apply reachable_ind.
  - intros k lock. cbn. by rewrite lookup_empty.
  - intros a app Hreach IH k lock Hl.
    destruct (event_of a) as [e|] eqn:He.
    + destruct (step_effect a app e Hreach He)
        as (Hf & Hother & d & Hk & _ & Hlon & Hlat & Hyaw & _).
      rewrite Hf in Hl. split; [by rewrite Hf|].
      destruct (decide (k = ToString (Event.id e))) as [->|Hne].
      * rewrite gate_lookup_same in Hl.
        destruct (isAllowed (Event.id e)); [discriminate|].
        injection Hl as <-. by exists d.
      * rewrite gate_lookup_other in Hl by done.
        destruct (IH k lock Hl) as (_ & d0 & Hd0). exists d0.
        by rewrite Hother.
    + destruct (step_not_accepted a app He) as [Hd Hf].
      rewrite Hf in Hl. destruct (IH k lock Hl) as (_ & d0 & Hd0).
      split; [by rewrite Hf|]. exists d0. by rewrite Hd.
Qed.

(** X7. In every reachable state each lock has a record under its key,
    and that record shows the lock's longitude, latitude and yaw. So the
    marker of a locked drone is rotated by the same angle whether the
    page reads [lock.yaw || 0] or [drone.yaw || 0]. *)
Theorem lock_and_record_agree (app : App) (k : string) (lock : Lock.t) :
  reachable app ->
  frozenPosRef app !! k = Some lock ->
  exists d,
    drones (store app) !! k = Some d
    /\ d !! "lon" = Some (Lock.lon lock)
    /\ d !! "lat" = Some (Lock.lat lock)
    /\ d !! "yaw" = Some (Lock.yaw lock)
    /\ or_else (Lock.yaw lock) (VNum 0) = or_else (get d "yaw") (VNum 0).
Proof.
  intros Hreach Hl.
  destruct (reachable_lock_has_record app k lock Hreach Hl)
    as (_ & d & Hk & Hlon & Hlat & Hyaw).
  exists d. repeat split; try done. by rewrite (get_lookup _ _ _ Hyaw).
Qed.

Lemma path_of_lookup (d : gmap string value) (l : list value) :
  d !! "path" = Some (VArr l) -> path_of d = l.
Proof. intros H. unfold path_of. by rewrite H. Qed.

(** X6. In every reachable state every lock and every record hold a
    finite longitude, a finite latitude and a yaw that is neither [null]
    nor [undefined], and every point of every path is a pair of finite
    numbers: what the [Number.isFinite] guard and the [?? 0] default let
    through is all that is ever stored. *)
Theorem stored_positions_are_sound (app : App) :
  reachable app ->
  (forall k lock, frozenPosRef app !! k = Some lock ->
     sound_position (Lock.lon lock) (Lock.lat lock) (Lock.yaw lock))
  /\ (forall k d, drones (store app) !! k = Some d ->
        sound_position (get d "lon") (get d "lat") (get d "yaw")
        /\ Forall finite_point (path_of d)).
Proof.
  intros Hreach. pattern app. revert app Hreach. apply reachable_ind.
  - split; intros k x; cbn; by rewrite lookup_empty.
  - intros a app Hreach [IHl IHd].
    destruct (event_of a) as [e|] eqn:He.
    2:{ destruct (step_not_accepted a app He) as [-> ->]. by split. }
    destruct (step_effect a app e Hreach He)
      as (Hf & Hother & d & Hk & _ & Hlon & Hlat & Hyaw & Hp).
    assert (Hg : sound_position (Lock.lon (gate e (frozenPosRef app)).1)
                   (Lock.lat (gate e (frozenPosRef app)).1)
                   (Lock.yaw (gate e (frozenPosRef app)).1)).
    { unfold gate. destruct (isAllowed (Event.id e)); cbn [fst];
        [by apply (event_sound a)|].
      destruct (frozenPosRef app !! ToString (Event.id e)) as [lock|] eqn:Hl;
        cbn [fst]; [by apply (IHl _ _ Hl)|by apply (event_sound a)]. }
    split.
    + intros k lock. rewrite Hf.
      destruct (decide (k = ToString (Event.id e))) as [->|Hne].
      * rewrite gate_lookup_same.
        destruct (isAllowed (Event.id e)); [discriminate|]. by intros [= <-].
      * rewrite gate_lookup_other by done. apply IHl.
    + intros k d'.
      destruct (decide (k = ToString (Event.id e))) as [->|Hne].
      * rewrite Hk. intros [= <-].
        rewrite (get_lookup _ _ _ Hlon), (get_lookup _ _ _ Hlat),
          (get_lookup _ _ _ Hyaw), (path_of_lookup _ _ Hp).
        split; [done|]. apply Forall_app. split.
        -- unfold path_at, existing_at.
           destruct (drones (store app) !! ToString (Event.id e)) as [d0|] eqn:Hd0;
             cbn [default from_option id].
           ++ by apply (IHd _ _ Hd0).
           ++ unfold path_of. rewrite lookup_empty. constructor.
        -- constructor; [|constructor].
           destruct Hg as (? & ? & _). by eexists _, _.
      * rewrite Hother by done. apply IHd.
Qed.

(** X8. In every reachable state, a record stored under a key that is
    not an admitted identifier is frozen: the key has a lock, the record
    shows the lock's longitude, latitude and yaw, and its path is that one
    locked position repeated, once per reconciled event. *)
Theorem restricted_record_is_frozen (app : App) (k : string) (d : gmap string value) :
  reachable app ->
  isAllowed (VStr k) = false ->
  drones (store app) !! k = Some d ->
  exists lock n,
    frozenPosRef app !! k = Some lock
    /\ d !! "lon" = Some (Lock.lon lock)
    /\ d !! "lat" = Some (Lock.lat lock)
    /\ d !! "yaw" = Some (Lock.yaw lock)
    /\ d !! "path" = Some (VArr (repeat (point (Lock.lon lock) (Lock.lat lock)) (S n))).
Proof.
  intros Hreach Hr. revert d. pattern app. revert app Hreach.
  apply reachable_ind.
  - intros d. cbn. by rewrite lookup_empty.
  - intros a app Hreach IH d'.
    destruct (event_of a) as [e|] eqn:He.
    2:{ destruct (step_not_accepted a app He) as [-> ->]. apply IH. }
    destruct (step_effect a app e Hreach He)
      as (Hf & Hother & d & Hk & _ & Hlon & Hlat & Hyaw & Hp).
    destruct (decide (k = ToString (Event.id e))) as [->|Hne].
    2:{ rewrite Hother by done. intros Hd'.
        destruct (IH _ Hd') as (lock & n & Hl & Hrest).
        exists lock, n. split; [|done]. by rewrite Hf, gate_lookup_other. }
    rewrite Hk. intros [= <-].
    assert (Hre : isAllowed (Event.id e) = false).
    { destruct (isAllowed (Event.id e)) eqn:Ha; [|done].
      pose proof (isAllowed_is_string _ Ha) as Hs. rewrite Hs in Ha. congruence. }
    destruct (frozenPosRef app !! ToString (Event.id e)) as [lock|] eqn:Hl.
    + destruct (reachable_lock_has_record _ _ _ Hreach Hl) as (_ & d0 & Hd0 & _).
      destruct (IH _ Hd0) as (lock' & n & Hl' & _ & _ & _ & Hp0).
      assert (lock' = lock) as -> by congruence.
      rewrite (gate_restricted_locked _ _ _ Hre Hl) in *. cbn [fst snd] in *.
      exists lock, (S n). rewrite Hf. split; [done|]. repeat split; try done.
      rewrite Hp, (path_at_lookup _ _ _ _ Hd0 Hp0). do 2 f_equal.
      symmetry. apply (repeat_cons (S n)).
    + assert (Hnew : drones (store app) !! ToString (Event.id e) = None).
      { destruct (drones (store app) !! ToString (Event.id e)) as [d0|] eqn:Hd0; [|done].
        destruct (IH _ eq_refl) as (lock & _ & Hl' & _). congruence. }
      rewrite (gate_restricted_new _ _ Hre Hl) in *. cbn [fst snd] in *.
      exists (live e), 0. rewrite Hf, lookup_insert_eq. split; [done|].
      repeat split; try done. by rewrite Hp, path_at_unknown.
Qed.


(** *** Live records *)

Lemma run_untouched (actions : list action) (app : App) (k : string) :
  Forall (fun a => key_of a <> Some k) actions ->
  drones (store (run actions app)) !! k = drones (store app) !! k.
Proof.
  revert app. induction actions as [|a rest IH]; intros app H; cbn [run]; [done|].
  apply Forall_cons in H as [Ha Hrest]. rewrite IH by done.
  destruct (step_drones a app k) as [->|(e & now & path & He & -> & _)]; [done|].
  unfold key_of in Ha. by rewrite He in Ha.
Qed.

(** X9. The record of an admitted identifier shows the last event
    reconciled for it: after an accepted admitted event, and after any
    further feed in which no accepted message is reconciled under the
    same key, the record holds the longitude, latitude and yaw of that
    event. *)
Theorem admitted_record_shows_last_event
  (app : App) (fc : option FeatureCollection) (now : float) (e : Event.t)
  (later : list action) :
  reachable app ->
  decode fc = Accepted e ->
  isAllowed (Event.id e) = true ->
  Forall (fun a => key_of a <> Some (ToString (Event.id e))) later ->
  exists d,
    drones (store (run (Message fc now :: later) app)) !! ToString (Event.id e) = Some d
    /\ d !! "lon" = Some (Event.lon e)
    /\ d !! "lat" = Some (Event.lat e)
    /\ d !! "yaw" = Some (Event.yaw e).
Proof.
  intros Hreach Hd Ha Hlater. cbn [run]. rewrite run_untouched by done.
  destruct (step_effect (Message fc now) app e Hreach (proj2 (event_of_Message _ _ _) Hd))
    as (_ & _ & d & Hk & _ & Hlon & Hlat & Hyaw & _).
  rewrite gate_admitted in Hlon, Hlat, Hyaw by done.
  by exists d.
Qed.

(** *** Metadata *)

Lemma droneData_metadata (id lon lat yaw : value) (p : gmap string value) :
  droneData id lon lat yaw p !! "altitude" = Some (get p "altitude")
  /\ droneData id lon lat yaw p !! "registration" = Some (get p "registration")
  /\ droneData id lon lat yaw p !! "name" = Some (get p "Name")
  /\ droneData id lon lat yaw p !! "pilot" = Some (get p "pilot")
  /\ droneData id lon lat yaw p !! "organization" = Some (get p "organization").
Proof. unfold droneData. repeat split; by simplify_map_eq. Qed.

(** X10. After every accepted event on a reachable state the record
    holds, under [altitude], [registration], [name], [pilot] and
    [organization], exactly what the event's properties give for
    [altitude], [registration], [Name], [pilot] and [organization]
    ([undefined] for a property the event lacks), whatever the record
    held before and whether or not the position is frozen. *)
Theorem metadata_is_that_of_the_last_event
  (app : App) (fc : option FeatureCollection) (now : float) (e : Event.t) :
  reachable app ->
  decode fc = Accepted e ->
  exists d,
    drones (store (onMessage fc now app).1) !! ToString (Event.id e) = Some d
    /\ d !! "altitude" = Some (get (Event.p e) "altitude")
    /\ d !! "registration" = Some (get (Event.p e) "registration")
    /\ d !! "name" = Some (get (Event.p e) "Name")
    /\ d !! "pilot" = Some (get (Event.p e) "pilot")
    /\ d !! "organization" = Some (get (Event.p e) "organization").
Proof.
  intros Hreach Hd. rewrite (onMessage_accepted _ _ _ _ Hd).
  apply reachable_paths_are_arrays in Hreach.
  rewrite reconcile_at by (by apply paths_are_arrays_path_ok).
  cbn [fst store drones]. eexists. split; [apply lookup_insert_eq|].
  destruct (droneData_metadata (Event.id e) (Lock.lon (gate e (frozenPosRef app)).1)
              (Lock.lat (gate e (frozenPosRef app)).1)
              (Lock.yaw (gate e (frozenPosRef app)).1) (Event.p e))
    as (H1 & H2 & H3 & H4 & H5).
  repeat split; by apply record_data.
Qed.

(** *** Counting path points *)

Lemma accepted_count_cons (k : string) (a : action) (rest : list action) :
  accepted_count k (a :: rest)
  = (if decide (key_of a = Some k) then 1 else 0) + accepted_count k rest.
Proof. unfold accepted_count. rewrite filter_cons. by destruct (decide _). Qed.

Lemma run_path_length (actions : list action) (app : App) (k : string) :
  paths_are_arrays (store app) ->
  length (path_at (run actions app) k)
  = length (path_at app k) + accepted_count k actions.
Proof.
  revert app. induction actions as [|a rest IH]; intros app Hwf; cbn [run].
  - unfold accepted_count. cbn. lia.
  - rewrite IH by (by apply step_paths_are_arrays).
    rewrite step_path_at by done. rewrite length_app, accepted_count_cons.
    unfold key_of. destruct (event_of a) as [e|]; cbn [length].
    + destruct (decide (k = ToString (Event.id e))) as [->|Hne].
      * rewrite decide_True by done. cbn. lia.
      * rewrite decide_False by congruence. cbn. lia.
    + rewrite decide_False by done. lia.
Qed.

Lemma run_unknown_key (actions : list action) (app : App) (k : string) :
  paths_are_arrays (store app) ->
  drones (store (run actions app)) !! k = None
  <-> drones (store app) !! k = None /\ accepted_count k actions = 0.
Proof.
  revert app. induction actions as [|a rest IH]; intros app Hwf; cbn [run].
  - unfold accepted_count. cbn. tauto.
  - rewrite IH by (by apply step_paths_are_arrays). rewrite accepted_count_cons.
    unfold key_of.
    destruct (step_drones a app k) as [Heq|(e & now & path & He & -> & Hk)].
    + rewrite Heq. destruct (event_of a) as [e|] eqn:He.
      * destruct (decide (Some (ToString (Event.id e)) = Some k)) as [[= <-]|Hne];
          [|tauto].
        destruct a as [fc now|id]; [|discriminate]. apply event_of_Message in He.
        cbn [step] in Heq. rewrite (onMessage_accepted _ _ _ _ He) in Heq.
        destruct (reconcile_effect e now app (paths_are_arrays_path_ok _ _ Hwf))
          as (_ & _ & _ & d & Hk & _).
        rewrite Hk in Heq. rewrite <- Heq. split; [intros [[=] _]|intros [_ [=]]].
      * rewrite decide_False by done. tauto.
    + rewrite Hk, He, decide_True by done.
      split; [intros [[=] _]|intros [_ [=]]].
Qed.

(** X13. From the empty store, after any feed of messages and
    selections, the path stored under a key has exactly as many points as
    the feed holds accepted messages reconciled under that key (malformed
    messages, messages for other keys and selections add nothing); and
    the key is absent from the drones map exactly when there were
    none. *)
Theorem path_length_counts_accepted_messages (actions : list action) (k : string) :
  length (path_at (run actions initialApp) k) = accepted_count k actions
  /\ (drones (store (run actions initialApp)) !! k = None
      <-> accepted_count k actions = 0).
Proof.
  assert (Hwf : paths_are_arrays (store initialApp)).
  { intros k' d. cbn. by rewrite lookup_empty. }
  split.
  - rewrite run_path_length by done. by rewrite path_at_unknown.
  - rewrite run_unknown_key by done. cbn. rewrite lookup_empty. tauto.
Qed.

(** X12. From the empty store, after any feed, a record contributes a
    line to the path layer exactly when at least two accepted messages
    were reconciled under its key; the line is then the whole stored
    path, one point per such message, and it is flagged [allowed]
    according to the record's [id]. *)
Theorem path_line_needs_two_events
  (actions : list action) (k : string) (d : gmap string value) :
  drones (store (run actions initialApp)) !! k = Some d ->
  (is_Some (pathFeature d) <-> 2 <= accepted_count k actions)
  /\ forall f, pathFeature d = Some f ->
       line f = path_at (run actions initialApp) k
       /\ length (line f) = accepted_count k actions
       /\ allowed f = isAllowed (get d "id").
Proof.
  intros Hk.
  assert (Hwf : paths_are_arrays (store initialApp)).
  { intros k' d'. cbn. by rewrite lookup_empty. }
  destruct (run_paths_are_arrays actions initialApp Hwf _ _ Hk) as [l Hl].
  pose proof (run_path_length actions initialApp k Hwf) as Hlen.
  rewrite (path_at_lookup _ _ _ _ Hk Hl), path_at_unknown in Hlen by done.
  cbn in Hlen. unfold pathFeature.
  rewrite (get_lookup _ _ _ Hl), (path_at_lookup _ _ _ _ Hk Hl).
  destruct (Nat.ltb_spec 1 (length l)) as [Hlt|Hge].
  - split; [split; [lia|eauto]|]. by intros f [= <-].
  - split; [|intros f [=]]. split; [intros [f [=]]|lia].
Qed.


(** *** The counter of red drones *)

Lemma length_filter_fmap {A B : Type} (f : A -> B) (P : B -> Prop)
  `{!forall x, Decision (P x)} (l : list A) :
  length (filter P (f <$> l)) = length (filter (fun x => P (f x)) l).
Proof.
  induction l as [|x l IH]; [done|]. cbn [fmap list_fmap].
  rewrite !filter_cons. destruct (decide (P (f x))); cbn; by rewrite IH.
Qed.

Lemma length_filter_map_to_list {A : Type} (P : string * A -> Prop)
  `{!forall x, Decision (P x)} (m : gmap string A) :
  length (filter P (map_to_list m)) = size (filter P m).
Proof.
  induction m as [|i x m Hi IH] using map_ind.
  - by rewrite map_to_list_empty, map_filter_empty, map_size_empty.
  - rewrite (map_to_list_insert m i x Hi), filter_cons.
    destruct (decide (P (i, x))) as [HP|HP].
    + rewrite map_filter_insert_True by done.
      rewrite map_size_insert_None; [cbn; by rewrite IH|].
      apply map_lookup_filter_None. by left.
    + rewrite map_filter_insert_False by done. by rewrite delete_id.
Qed.

(** A key has a lock exactly when its record carries a restricted
    [id]. *)
Lemma reachable_lock_iff_restricted (app : App) (k : string) :
  reachable app ->
  is_Some (frozenPosRef app !! k)
  <-> exists d, drones (store app) !! k = Some d /\ isAllowed (get d "id") = false.
Proof.
  intros Hreach. revert k. pattern app. revert app Hreach. apply reachable_ind.
  - intros k. cbn. rewrite !lookup_empty. split; [by intros [? ?]|by intros (? & ? & _)].
  - intros a app Hreach IH k.
    destruct (event_of a) as [e|] eqn:He.
    2:{ destruct (step_not_accepted a app He) as [-> ->]. apply IH. }
    destruct (step_effect a app e Hreach He) as (Hf & Hother & d & Hk & Hid & _).
    rewrite Hf. destruct (decide (k = ToString (Event.id e))) as [->|Hne].
    + rewrite gate_lookup_same, Hk. split.
      * intros Hs. exists d. split; [done|]. rewrite (get_lookup _ _ _ Hid).
        destruct (isAllowed (Event.id e)); [by destruct Hs|done].
      * intros (d' & [= <-] & Hr). rewrite (get_lookup _ _ _ Hid) in Hr.
        rewrite Hr. eauto.
    + rewrite gate_lookup_other, Hother by done. apply IH.
Qed.

(** X11. In every reachable state the number the page shows as "Red
    Drones" (the length of [redDrones], the records whose [id] is not
    admitted) is the number of locks in [frozenPosRef]. *)
Theorem red_drones_are_the_locked_ones (app : App) :
  reachable app ->
  length (redDrones (drones (store app))) = size (frozenPosRef app).
Proof.
  intros Hreach. unfold redDrones.
  rewrite length_filter_fmap, length_filter_map_to_list.
  rewrite <- !size_dom. f_equal. apply set_eq. intros k.
  rewrite !elem_of_dom, (reachable_lock_iff_restricted app k Hreach).
  unfold is_Some. setoid_rewrite map_lookup_filter_Some. cbn. done.
Qed.


(** *** Locks *)

(** X14. A step never changes the contents of a lock: a lock that exists
    before the step is still the same lock after it, unless the step is
    an accepted message for an admitted identifier that prints as the
    lock's key, which deletes it. *)
Theorem lock_is_kept_or_deleted (a : action) (app : App) (k : string) (lock : Lock.t) :
  frozenPosRef app !! k = Some lock ->
  frozenPosRef (step a app) !! k = Some lock
  \/ (frozenPosRef (step a app) !! k = None
      /\ exists e, event_of a = Some e
                   /\ isAllowed (Event.id e) = true
                   /\ ToString (Event.id e) = k).
Proof.
  intros Hl. rewrite step_frozen.
  destruct (event_of a) as [e|]; [|by left].
  destruct (decide (k = ToString (Event.id e))) as [->|Hne].
  - destruct (isAllowed (Event.id e)) eqn:Ha.
    + right. rewrite gate_admitted by done. cbn [snd].
      split; [apply lookup_delete_eq|]. by exists e.
    + left. by rewrite (gate_restricted_locked _ _ _ Ha Hl).
  - left. by rewrite gate_lookup_other.
Qed.


End Host.

(** ** The theorems at work on the sample feeds *)

Lemma initialApp_reachable (Number_toString : float -> string) :
  reachable Number_toString initialApp.
Proof. by exists []. Qed.

(** C2. The record of SD-A02 carries altitude 120 after the first event,
    and [undefined] after the second event, which carries no altitude:
    the handler's object literal names the key [altitude] with the value
    [undefined], and the spread in the store lets it replace 120. *)
Theorem altitude_is_erased_by_event_without_altitude :
  match drones (store (run sample_Number_toString
                         [Message A02_first 1000] initialApp)) !! "SD-A02" with
  | Some d => d !! "altitude"
  | None => None
  end = Some (VNum 120)
  /\ match drones (store (run sample_Number_toString
                            [Message A02_first 1000; Message A02_second 2000]
                            initialApp)) !! "SD-A02" with
     | Some d => d !! "altitude"
     | None => None
     end = Some VUndefined.
Proof. split; vm_compute; reflexivity. Qed.

Lemma restricted_position_is_first_event_witness :
  frozenPosRef (run sample_Number_toString
                  [Message A02_first 1000; Message A02_second 2000] initialApp)
    !! "SD-A02"
  = Some {| Lock.lon := VNum 10; Lock.lat := VNum 20; Lock.yaw := VNum 45 |}
  /\ exists d,
      drones (store (run sample_Number_toString
                       [Message A02_first 1000; Message A02_second 2000] initialApp))
        !! "SD-A02" = Some d
      /\ d !! "lon" = Some (VNum 10)
      /\ d !! "lat" = Some (VNum 20)
      /\ d !! "yaw" = Some (VNum 45)
      /\ d !! "path" = Some (VArr [VArr [VNum 10; VNum 20]; VArr [VNum 10; VNum 20]]).
Proof.
  apply (restricted_position_is_first_event sample_Number_toString initialApp
           A02_first A02_second 1000 2000
           (sample_event (VStr "SD-A02") (VNum 10) (VNum 20) (VNum 45) props_A02_first)
           (sample_event (VStr "SD-A02") (VNum 99) (VNum 99) (VNum 1) props_A02_second));
    reflexivity.
Defined.

(** C5. A Point message whose coordinates are the number 5, the boolean
    [true] or an object is malformed (it carries no finite longitude and
    latitude), and the handler does not ignore it silently: the
    destructuring [const [lon, lat] = ...] throws a TypeError. The state
    is left as it was. *)
Theorem malformed_coordinates_make_the_handler_throw :
  malformed (point_with_coordinates (VNum 5))
  /\ malformed (point_with_coordinates (VBool true))
  /\ malformed (point_with_coordinates VObj)
  /\ onMessage sample_Number_toString (point_with_coordinates (VNum 5)) 3000
       (run sample_Number_toString [Message A02_first 1000] initialApp)
     = (run sample_Number_toString [Message A02_first 1000] initialApp, Throw)
  /\ onMessage sample_Number_toString (point_with_coordinates (VBool true)) 3000
       (run sample_Number_toString [Message A02_first 1000] initialApp)
     = (run sample_Number_toString [Message A02_first 1000] initialApp, Throw)
  /\ onMessage sample_Number_toString (point_with_coordinates VObj) 3000
       (run sample_Number_toString [Message A02_first 1000] initialApp)
     = (run sample_Number_toString [Message A02_first 1000] initialApp, Throw).
Proof.
  repeat split;
    try (eapply no_finite_position; [reflexivity|reflexivity|discriminate]);
    reflexivity.
Qed.

(** A message with a NaN longitude, for a restricted identifier that has
    no lock yet, is dropped: no record, no lock, no error. *)
Example nan_longitude_is_dropped :
  onMessage sample_Number_toString A07_nan 3000
    (run sample_Number_toString [Message A02_first 1000] initialApp)
  = (run sample_Number_toString [Message A02_first 1000] initialApp, Normal).
Proof. reflexivity. Qed.

Lemma admitted_event_clears_lock_witness :
  frozenPosRef (onMessage sample_Number_toString B17_first 1000 initialApp).1 !! "SD-B17"
  = None
  /\ exists d,
      drones (store (onMessage sample_Number_toString B17_first 1000 initialApp).1)
        !! "SD-B17" = Some d
      /\ d !! "lon" = Some (VNum 35.5)
      /\ d !! "lat" = Some (VNum 31.75)
      /\ d !! "yaw" = Some (VNum 90)
      /\ d !! "path" = Some (VArr [VArr [VNum 35.5; VNum 31.75]]).
Proof.
  apply (admitted_event_clears_lock sample_Number_toString initialApp B17_first 1000
           (sample_event (VStr "SD-B17") (VNum 35.5) (VNum 31.75) (VNum 90) props_B17)
           (initialApp_reachable sample_Number_toString) eq_refl eq_refl).
Defined.

Lemma firstSeen_is_first_reconciliation_witness :
  exists d,
    drones (store (run sample_Number_toString
                     [Message A02_first 1000; Message A02_second 2000;
                      Message B17_first 2500; Message A02_second 3000] initialApp))
      !! "SD-A02" = Some d
    /\ d !! "firstSeen" = Some (VNum 1000).
Proof.
  apply (firstSeen_is_first_reconciliation sample_Number_toString initialApp
           A02_first 1000
           (sample_event (VStr "SD-A02") (VNum 10) (VNum 20) (VNum 45) props_A02_first)
           [Message A02_second 2000; Message B17_first 2500; Message A02_second 3000]);
    reflexivity.
Defined.

Lemma path_grows_one_point_per_event_witness :
  path_at (run sample_Number_toString
             [Message B17_first 1000; Message B17_second 2000] initialApp) "SD-B17"
  = [VArr [VNum 35.5; VNum 31.75]; VArr [VNum 36; VNum 32]]
  /\ length (path_at (run sample_Number_toString
                        [Message B17_first 1000; Message B17_second 2000] initialApp)
               "SD-B17") = 2.
Proof.
  assert (Hfeed : Forall (accepted_for (VStr "SD-B17"))
                    [Message B17_first 1000; Message B17_second 2000]).
  { repeat constructor; eexists; split; reflexivity. }
  destruct (path_grows_one_point_per_event sample_Number_toString initialApp
              (VStr "SD-B17") [Message B17_first 1000; Message B17_second 2000]
              (initialApp_reachable sample_Number_toString) Hfeed)
    as ((pts & Hpath & _ & Hadmitted & _) & Hlength & _).
  split.
  - etransitivity; [exact Hpath|]. rewrite (Hadmitted eq_refl). reflexivity.
  - apply Hlength. reflexivity.
Defined.


(** The [id] field need not be the key, and need not stay what it was:
    a registration [true] is stored under the key "true" with the [id]
    field [true], which is not the key; and
    after the array registration [["SD-A02"]] the string registration
    "SD-A02" replaces the [id] of the record already stored under
    "SD-A02". *)
Lemma id_field_is_not_always_the_key :
  (exists k d,
      drones (store (run sample_Number_toString
                       [Message (telemetry (VNum 1) (VNum 2)
                                   (<["registration" := VBool true]> ∅)) 1000]
                       initialApp)) !! k = Some d
      /\ d !! "id" <> Some (VStr k))
  /\ (exists k d d',
        drones (store (run sample_Number_toString
                         [Message (telemetry (VNum 1) (VNum 2)
                                     (<["registration" := VArr [VStr "SD-A02"]]> ∅)) 1000]
                         initialApp)) !! k = Some d
        /\ drones (store (run sample_Number_toString
                            [Message (telemetry (VNum 1) (VNum 2)
                                        (<["registration" := VArr [VStr "SD-A02"]]> ∅))
                               1000;
                             Message A02_first 2000]
                            initialApp)) !! k = Some d'
        /\ d' !! "id" <> d !! "id").
Proof.
  split.
  - exists "true",
      (default ∅ (drones (store (run sample_Number_toString
                                   [Message (telemetry (VNum 1) (VNum 2)
                                               (<["registration" := VBool true]> ∅)) 1000]
                                   initialApp)) !! "true")).
    split; [vm_compute; reflexivity|vm_compute; discriminate].
  - exists "SD-A02",
      (default ∅ (drones (store (run sample_Number_toString
                                   [Message (telemetry (VNum 1) (VNum 2)
                                               (<["registration" := VArr [VStr "SD-A02"]]> ∅))
                                      1000]
                                   initialApp)) !! "SD-A02")),
      (default ∅ (drones (store (run sample_Number_toString
                                   [Message (telemetry (VNum 1) (VNum 2)
                                               (<["registration" := VArr [VStr "SD-A02"]]> ∅))
                                      1000;
                                    Message A02_first 2000]
                                   initialApp)) !! "SD-A02")).
    split; [vm_compute; reflexivity|].
    split; [vm_compute; reflexivity|vm_compute; discriminate].
Qed.

Lemma record_key_is_string_of_id_witness :
  ToString sample_Number_toString
    (get (default ∅ (drones (store (run sample_Number_toString
                                      [Message (telemetry (VNum 1) (VNum 2)
                                                  (<["registration" := VBool true]> ∅))
                                         1000;
                                       Message A02_first 1500]
                                      initialApp)) !! "true")) "id")
  = "true".
Proof.
  apply (record_key_is_string_of_id sample_Number_toString
           [Message (telemetry (VNum 1) (VNum 2) (<["registration" := VBool true]> ∅))
              1000;
            Message A02_first 1500]
           "true"
           (default ∅ (drones (store (run sample_Number_toString
                                        [Message (telemetry (VNum 1) (VNum 2)
                                                    (<["registration" := VBool true]> ∅))
                                           1000;
                                         Message A02_first 1500]
                                        initialApp)) !! "true"))).
  vm_compute. reflexivity.
Defined.

(** *** Further runs of the model *)

(** Scenario A: one event for an admitted drone. *)
Example admitted_drone_is_stored_live :
  isAllowed (VStr "SD-B17") = true
  /\ path_at (run sample_Number_toString [Message B17_first 1000] initialApp) "SD-B17"
     = [VArr [VNum 35.5; VNum 31.75]]
  /\ frozenPosRef (run sample_Number_toString [Message B17_first 1000] initialApp) = ∅.
Proof. repeat split; vm_compute; reflexivity. Qed.

(** Scenario D: selecting an identifier the store does not know. *)
Example selection_needs_no_record :
  selectedDroneId (store (run sample_Number_toString [Select (VStr "SD-B17")] initialApp))
  = VStr "SD-B17"
  /\ drones (store (run sample_Number_toString [Select (VStr "SD-B17")] initialApp)) = ∅.
Proof. split; reflexivity. Qed.

(** [existing.firstSeen || Date.now()] takes a stamp of zero for no stamp:
    a record first reconciled at clock reading 0 is stamped again by the
    next event. *)
Example firstSeen_zero_is_stamped_again :
  match drones (store (run sample_Number_toString
                         [Message A02_first 0; Message A02_second 2000] initialApp))
          !! "SD-A02" with
  | Some d => d !! "firstSeen"
  | None => None
  end = Some (VNum 2000).
Proof. vm_compute; reflexivity. Qed.

(** A registration that is not a string is kept as it is in the [id]
    field, while the record is stored under [String(id)]. *)
Example non_string_id_is_stored_under_its_string :
  match drones (store (run sample_Number_toString
                         [Message (telemetry (VNum 1) (VNum 2)
                                     (<["registration" := VBool true]> ∅)) 1000]
                         initialApp)) !! "true" with
  | Some d => d !! "id"
  | None => None
  end = Some (VBool true).
Proof. vm_compute; reflexivity. Qed.

(** A lock is deleted only when an admitted identifier shares its key
    with a restricted one: the array [["SD-B17"]] is restricted and
    prints as "SD-B17". *)
Example admitted_event_deletes_existing_lock :
  is_Some (frozenPosRef (run sample_Number_toString
                           [Message (telemetry (VNum 1) (VNum 2)
                                       (<["registration" := VArr [VStr "SD-B17"]]> ∅)) 1000]
                           initialApp) !! "SD-B17")
  /\ frozenPosRef (run sample_Number_toString
                     [Message (telemetry (VNum 1) (VNum 2)
                                 (<["registration" := VArr [VStr "SD-B17"]]> ∅)) 1000;
                      Message B17_first 2000]
                     initialApp) !! "SD-B17" = None.
Proof. split; [eexists|]; vm_compute; reflexivity. Qed.

(** ** The further properties at work on the sample feeds *)

Lemma sample_reachable (actions : list action) :
  reachable sample_Number_toString (run sample_Number_toString actions initialApp).
Proof. by exists actions. Qed.

Lemma records_are_never_removed_witness :
  is_Some (drones (store (run sample_Number_toString
                            [Message B17_first 2000; Message A07_nan 3000;
                             Select (VStr "SD-B17")]
                            (run sample_Number_toString [Message A02_first 1000]
                               initialApp))) !! "SD-A02").
Proof.
  apply (records_are_never_removed sample_Number_toString
           [Message B17_first 2000; Message A07_nan 3000; Select (VStr "SD-B17")]
           (run sample_Number_toString [Message A02_first 1000] initialApp) "SD-A02").
  vm_compute. eexists. reflexivity.
Defined.


Lemma handler_throws_on_unspreadable_coordinates_witness :
  onMessage sample_Number_toString coordinates_not_iterable 1000
    (run sample_Number_toString [Message A02_first 500] initialApp)
  = (run sample_Number_toString [Message A02_first 500] initialApp, Throw).
Proof.
  apply (proj1 (handler_throws_on_unspreadable_coordinates sample_Number_toString)
           coordinates_not_iterable 1000%float
           (run sample_Number_toString [Message A02_first 500] initialApp)
           _ _ eq_refl eq_refl eq_refl eq_refl).
Defined.

Lemma stored_positions_are_sound_witness :
  (forall k lock,
      frozenPosRef (run sample_Number_toString
                      [Message A02_first 1000; Message B17_first 1500;
                       Message A02_second 2000] initialApp) !! k = Some lock ->
      sound_position (Lock.lon lock) (Lock.lat lock) (Lock.yaw lock))
  /\ (forall k d,
        drones (store (run sample_Number_toString
                         [Message A02_first 1000; Message B17_first 1500;
                          Message A02_second 2000] initialApp)) !! k = Some d ->
        sound_position (get d "lon") (get d "lat") (get d "yaw")
        /\ Forall finite_point (path_of d)).
Proof.
  apply (stored_positions_are_sound sample_Number_toString _
           (sample_reachable [Message A02_first 1000; Message B17_first 1500;
                              Message A02_second 2000])).
Defined.

Lemma lock_and_record_agree_witness :
  exists d,
    drones (store (run sample_Number_toString
                     [Message A02_first 1000; Message A02_second 2000] initialApp))
      !! "SD-A02" = Some d
    /\ d !! "lon" = Some (VNum 10)
    /\ d !! "lat" = Some (VNum 20)
    /\ d !! "yaw" = Some (VNum 45)
    /\ or_else (VNum 45) (VNum 0) = or_else (get d "yaw") (VNum 0).
Proof.
  apply (lock_and_record_agree sample_Number_toString
           (run sample_Number_toString
              [Message A02_first 1000; Message A02_second 2000] initialApp)
           "SD-A02"
           {| Lock.lon := VNum 10; Lock.lat := VNum 20; Lock.yaw := VNum 45 |}
           (sample_reachable [Message A02_first 1000; Message A02_second 2000])).
  vm_compute. reflexivity.
Defined.

Lemma restricted_record_is_frozen_witness :
  exists lock n,
    frozenPosRef (run sample_Number_toString
                    [Message A02_first 1000; Message B17_first 1500;
                     Message A02_second 2000] initialApp) !! "SD-A02" = Some lock
    /\ default ∅ (drones (store (run sample_Number_toString
                                  [Message A02_first 1000; Message B17_first 1500;
                                   Message A02_second 2000] initialApp)) !! "SD-A02")
         !! "lon" = Some (Lock.lon lock)
    /\ default ∅ (drones (store (run sample_Number_toString
                                  [Message A02_first 1000; Message B17_first 1500;
                                   Message A02_second 2000] initialApp)) !! "SD-A02")
         !! "lat" = Some (Lock.lat lock)
    /\ default ∅ (drones (store (run sample_Number_toString
                                  [Message A02_first 1000; Message B17_first 1500;
                                   Message A02_second 2000] initialApp)) !! "SD-A02")
         !! "yaw" = Some (Lock.yaw lock)
    /\ default ∅ (drones (store (run sample_Number_toString
                                  [Message A02_first 1000; Message B17_first 1500;
                                   Message A02_second 2000] initialApp)) !! "SD-A02")
         !! "path"
       = Some (VArr (repeat (point (Lock.lon lock) (Lock.lat lock)) (S n))).
Proof.
  apply (restricted_record_is_frozen sample_Number_toString
           (run sample_Number_toString
              [Message A02_first 1000; Message B17_first 1500; Message A02_second 2000]
              initialApp)
           "SD-A02" _
           (sample_reachable [Message A02_first 1000; Message B17_first 1500;
                              Message A02_second 2000]));
    vm_compute; reflexivity.
Defined.

Lemma admitted_record_shows_last_event_witness :
  exists d,
    drones (store (run sample_Number_toString
                     [Message B17_second 2000; Message A02_first 2500;
                      Select (VStr "SD-A02"); Message A07_nan 3000]
                     (run sample_Number_toString [Message B17_first 1000] initialApp)))
      !! "SD-B17" = Some d
    /\ d !! "lon" = Some (VNum 36)
    /\ d !! "lat" = Some (VNum 32)
    /\ d !! "yaw" = Some (VNum 90).
Proof.
  apply (admitted_record_shows_last_event sample_Number_toString
           (run sample_Number_toString [Message B17_first 1000] initialApp)
           B17_second 2000
           (sample_event (VStr "SD-B17") (VNum 36) (VNum 32) (VNum 90) props_B17)
           [Message A02_first 2500; Select (VStr "SD-A02"); Message A07_nan 3000]
           (sample_reachable [Message B17_first 1000]) eq_refl eq_refl).
  repeat (constructor; [by vm_compute|]). constructor.
Defined.

Lemma metadata_is_that_of_the_last_event_witness :
  exists d,
    drones (store (onMessage sample_Number_toString A02_second 2000
                     (run sample_Number_toString [Message A02_first 1000] initialApp)).1)
      !! "SD-A02" = Some d
    /\ d !! "altitude" = Some VUndefined
    /\ d !! "registration" = Some (VStr "SD-A02")
    /\ d !! "name" = Some VUndefined
    /\ d !! "pilot" = Some VUndefined
    /\ d !! "organization" = Some VUndefined.
Proof.
  apply (metadata_is_that_of_the_last_event sample_Number_toString
           (run sample_Number_toString [Message A02_first 1000] initialApp)
           A02_second 2000
           (sample_event (VStr "SD-A02") (VNum 99) (VNum 99) (VNum 1) props_A02_second)
           (sample_reachable [Message A02_first 1000]) eq_refl).
Defined.

Lemma red_drones_are_the_locked_ones_witness :
  length (redDrones (drones (store (run sample_Number_toString
                                      [Message A02_first 1000; Message B17_first 1500;
                                       Message unidentified_first 1700;
                                       Message A02_second 2000] initialApp))))
  = size (frozenPosRef (run sample_Number_toString
                          [Message A02_first 1000; Message B17_first 1500;
                           Message unidentified_first 1700;
                           Message A02_second 2000] initialApp)).
Proof.
  apply (red_drones_are_the_locked_ones sample_Number_toString _
           (sample_reachable [Message A02_first 1000; Message B17_first 1500;
                              Message unidentified_first 1700;
                              Message A02_second 2000])).
Defined.

Lemma path_line_needs_two_events_witness :
  is_Some (pathFeature
             (default ∅ (drones (store (run sample_Number_toString
                                          [Message A02_first 1000; Message B17_first 1500;
                                           Message A02_second 2000] initialApp))
                         !! "SD-A02")))
  /\ ~ is_Some (pathFeature
                  (default ∅ (drones (store (run sample_Number_toString
                                               [Message A02_first 1000;
                                                Message B17_first 1500;
                                                Message A02_second 2000] initialApp))
                              !! "SD-B17"))).
Proof.
  split.
  - apply (path_line_needs_two_events sample_Number_toString
             [Message A02_first 1000; Message B17_first 1500; Message A02_second 2000]
             "SD-A02" _); [vm_compute; reflexivity|vm_compute; lia].
  - intros H.
    apply (path_line_needs_two_events sample_Number_toString
             [Message A02_first 1000; Message B17_first 1500; Message A02_second 2000]
             "SD-B17" _) in H; [vm_compute in H; lia|vm_compute; reflexivity].
Defined.

Lemma lock_is_kept_or_deleted_witness :
  frozenPosRef (step sample_Number_toString (Message A02_second 2000)
                  (run sample_Number_toString [Message A02_first 1000] initialApp))
    !! "SD-A02"
  = Some {| Lock.lon := VNum 10; Lock.lat := VNum 20; Lock.yaw := VNum 45 |}
  \/ (frozenPosRef (step sample_Number_toString (Message A02_second 2000)
                      (run sample_Number_toString [Message A02_first 1000] initialApp))
        !! "SD-A02" = None
      /\ exists e, event_of (Message A02_second 2000) = Some e
                   /\ isAllowed (Event.id e) = true
                   /\ ToString sample_Number_toString (Event.id e) = "SD-A02").
Proof.
  apply (lock_is_kept_or_deleted sample_Number_toString (Message A02_second 2000)
           (run sample_Number_toString [Message A02_first 1000] initialApp) "SD-A02").
  vm_compute. reflexivity.
Defined.

(** Iterating a string yields its code points, not its bytes. *)
Example code_points_groups_bytes :
  code_points "aéb" = ["a"; "é"; "b"]
  /\ iterate (VStr "é") = Some [VStr "é"].
Proof. split; reflexivity. Qed.
